(** * Session state machine of the console: a shallow embedding

    The development follows the two source files of the repository:

    - [execute.go] (package gonsole): the execution controller, which owns
      the [isExecuting] flag and classifies the errors of the command
      parser;
    - [console.go] (package console): the menu registry ([NewMenu],
      [SwitchMenu], [activeMenu]), the history bindings of the line reader
      and the [SystemEditor] wrapper with its byte/rune conversions.

    Stateful code is written with explicit state passing; the external
    collaborators (command parser, help renderer, editor, line reader) are
    parameters of the sections that use them. *)

From Stdlib Require Import ZArith Lia.
From Stdlib.Strings Require Import Byte.
From stdpp Require Import gmap strings list fin_maps.

Local Open Scope Z_scope.

(* ===================================================================== *)
(** * Execution controller ([execute.go])                                  *)
(* ===================================================================== *)

Module Execute.

(** ** Errors of the command parser (go-flags) *)

(** [type ErrorType uint]. *)
Definition ErrorType := N.

(** [flags.Error]: [Type] is the kind, [Message] the display text. *)
Record flags_Error := { Type_ : ErrorType; Message : string }.

(** [func (e *Error) Error() string { return e.Message }]. *)
Definition Error (e : flags_Error) : string := Message e.

(** A non-nil value of the interface type [error], by dynamic type.
    [FlagsError p] has dynamic type [*flags.Error]; the pointer [p] itself
    may be nil, which Go keeps apart from a nil interface.  [Foreign]
    stands for every other dynamic type. *)
Inductive error :=
  | FlagsError (p : option flags_Error)
  | Foreign (text : string).

(** How a call ends: it returns a value or it panics. *)
Inductive completion (A : Type) :=
  | Returned (a : A)
  | Panicked (v : string).
Arguments Returned {A} a.
Arguments Panicked {A} v.

(** ** State and effects *)

(** What [execute] does, step by step, in program order. *)
Inductive event :=
  | EvSetIsExecuting (b : bool)
  | EvParseArgs (args : list string)
  | EvHandleHelpFlag (result : list string)
  | EvPrintln (line : string).

Global Instance event_eq_dec : EqDecision event.
Proof. solve_decision. Defined.

(** The part of the console [execute] touches: the flag, the text it wrote
    to standard output, and the log of its steps. *)
Record State := {
  isExecuting : bool;
  stdout : string;
  events : list event
}.

Definition log (e : event) (s : State) : State :=
  {| isExecuting := isExecuting s; stdout := stdout s; events := events s ++ [e] |}.

(** Computations over the state that may panic. *)
Definition Go (A : Type) : Type := State -> State * completion A.

Definition ret {A} (a : A) : Go A := fun s => (s, Returned a).

Definition panic {A} (v : string) : Go A := fun s => (s, Panicked v).

Definition bind {A B} (m : Go A) (k : A -> Go B) : Go B :=
  fun s =>
    match m s with
    | (s', Returned a) => k a s'
    | (s', Panicked v) => (s', Panicked v)
    end.

Notation "m >>= k" := (bind m k) (at level 58, left associativity).

(** [defer d] followed by [body]: [d] runs when [body] is over, whether it
    returned or panicked; a panic of [body] goes on after [d]. *)
Definition defer {A} (d : Go unit) (body : Go A) : Go A :=
  fun s =>
    match body s with
    | (s1, r) =>
        match d s1 with
        | (s2, Returned _) => (s2, r)
        | (s2, Panicked v) => (s2, Panicked v)
        end
    end.

(** [c.isExecuting = b]. *)
Definition set_isExecuting (b : bool) : Go unit :=
  fun s =>
    ({| isExecuting := b; stdout := stdout s;
        events := events s ++ [EvSetIsExecuting b] |}, Returned tt).

(** The line feed that ends a printed line. *)
Definition newline : string := String (Ascii.ascii_of_nat 10) EmptyString.

(** [fmt.Println(line)]: the text and a newline. *)
Definition Println (line : string) : Go unit :=
  fun s =>
    ({| isExecuting := isExecuting s;
        stdout := stdout s +:+ line +:+ newline;
        events := events s ++ [EvPrintln line] |}, Returned tt).

(** A panic value of the Go runtime. *)
Definition nil_dereference : string :=
  "runtime error: invalid memory address or nil pointer dereference".

Section Controller.

(** The constant [parserError] (the label in front of a parser error) is
    declared in a file of the package that is not under src/. *)
Variable parserError : string.

(** [flags.ErrHelp], a constant of go-flags. *)
Variable ErrHelp : ErrorType.

(** [c.parser.ParseArgs]: the external command parser.  It returns the
    remaining arguments and an error (nil is [None]), or panics. *)
Variable ParseArgs : list string -> completion (list string * option error).

(** [c.handleHelpFlag], the custom help view; the method is in a file of
    the package that is not under src/.  Only how it ends matters here. *)
Variable handleHelpFlag : list string -> completion unit.

Definition call_ParseArgs (args : list string)
  : Go (list string * option error) :=
  fun s => (log (EvParseArgs args) s, ParseArgs args).

Definition call_handleHelpFlag (result : list string) : Go unit :=
  fun s => (log (EvHandleHelpFlag result) s, handleHelpFlag result).

(** [func (c *Console) execute(args []string)].  The test [err == nil]
    inside the branch [err != nil] is never true and has no counterpart
    here.  The function has no result. *)
Definition execute (args : list string) : Go unit :=
  set_isExecuting true >>= fun _ =>
  defer (set_isExecuting false)
    (call_ParseArgs args >>= fun '(result, err) =>
     match err with
     | None => ret tt
     | Some (Foreign _) => ret tt
     | Some (FlagsError None) => panic nil_dereference
     | Some (FlagsError (Some parserErr)) =>
         if (Type_ parserErr =? ErrHelp)%N
         then call_handleHelpFlag result
         else Println (parserError +:+ Error parserErr)
     end).

(** The steps of the body between the two writes of the flag. *)
Definition body_events (args : list string) : list event :=
  match ParseArgs args with
  | Returned (result, Some (FlagsError (Some parserErr))) =>
      if (Type_ parserErr =? ErrHelp)%N
      then [EvHandleHelpFlag result]
      else [EvPrintln (parserError +:+ Error parserErr)]
  | _ => []
  end.

End Controller.

(** Steps that write the flag. *)
Definition writes_flag (e : event) : bool :=
  match e with EvSetIsExecuting _ => true | _ => false end.

(** A parser with the same answer on every token list. *)
Definition const_parser (r : completion (list string * option error))
  : list string -> completion (list string * option error) := fun _ => r.

Definition idle : State := {| isExecuting := false; stdout := ""; events := [] |}.

(** The propagation of a foreign error, as the specification states it:
    on a foreign error [execute] prints
    nothing, and its caller can get the error back from what the call
    leaves (final state and completion), by an observer that reports no
    error after a successful parse. *)
Definition foreign_error_surfaced
    (parserError : string) (ErrHelp : ErrorType)
    (ParseArgs : list string -> completion (list string * option error))
    (handleHelpFlag : list string -> completion unit)
    (args : list string) (s : State) : Prop :=
  forall result text,
    ParseArgs args = Returned (result, Some (Foreign text)) ->
    stdout (execute parserError ErrHelp ParseArgs handleHelpFlag args s).1
      = stdout s /\
    exists observe : State * completion unit -> option error,
      observe (execute parserError ErrHelp ParseArgs handleHelpFlag args s)
        = Some (Foreign text) /\
      forall ParseArgs',
        ParseArgs' args = Returned (result, None) ->
        observe (execute parserError ErrHelp ParseArgs' handleHelpFlag args s)
          = None.

End Execute.

(* ===================================================================== *)
(** * Conversions between byte slices, strings and rune slices            *)
(* ===================================================================== *)

(** [SystemEditor] converts its buffer with [[]rune(string(buffer))] and
    the edited runes with [[]byte(string(edited))].  The conversions are
    those of the Go runtime (runtime/utf8.go, runtime/string.go); validity
    is that of [unicode/utf8.Valid]. *)
Module Utf8.

(** A rune is an [int32], a byte a [uint8]. *)
Definition rune := Z.
Abbreviation byte := Byte.byte.

Definition b2z (b : byte) : Z := Z.of_N (Byte.to_N b).

(** [byte(x)]: the low eight bits. *)
Definition z2b (x : Z) : byte :=
  match Byte.of_N (Z.to_N (Z.land x 0xFF)) with
  | Some b => b
  | None => Byte.x00
  end.

Definition runeError : rune := 0xFFFD.
Definition runeSelf : Z := 0x80.
Definition maxRune : rune := 0x10FFFF.
Definition surrogateMin : rune := 0xD800.
Definition surrogateMax : rune := 0xDFFF.

Definition tx : Z := 0x80.
Definition t2 : Z := 0xC0.
Definition t3 : Z := 0xE0.
Definition t4 : Z := 0xF0.
Definition t5 : Z := 0xF8.

Definition maskx : Z := 0x3F.
Definition mask2 : Z := 0x1F.
Definition mask3 : Z := 0x0F.
Definition mask4 : Z := 0x07.

Definition rune1Max : rune := 0x7F.
Definition rune2Max : rune := 0x7FF.
Definition rune3Max : rune := 0xFFFF.

Definition locb : Z := 0x80.
Definition hicb : Z := 0xBF.

(** [locb <= c && c <= hicb]. *)
Definition is_cont (c : byte) : bool := (locb <=? b2z c) && (b2z c <=? hicb).

(** [decoderune(s, k)] on the suffix [s[k:]], which starts with a byte
    that is not ASCII: the rune and the number of bytes it takes. *)
Definition decoderune (s : list byte) : rune * nat :=
  match s with
  | [] => (runeError, 1%nat)
  | s0 :: rest =>
      if (t2 <=? b2z s0) && (b2z s0 <? t3) then
        match rest with
        | s1 :: _ =>
            if is_cont s1 then
              let r := Z.lor (Z.shiftl (Z.land (b2z s0) mask2) 6)
                             (Z.land (b2z s1) maskx) in
              if rune1Max <? r then (r, 2%nat) else (runeError, 1%nat)
            else (runeError, 1%nat)
        | _ => (runeError, 1%nat)
        end
      else if (t3 <=? b2z s0) && (b2z s0 <? t4) then
        match rest with
        | s1 :: s2 :: _ =>
            if is_cont s1 && is_cont s2 then
              let r := Z.lor (Z.lor (Z.shiftl (Z.land (b2z s0) mask3) 12)
                                    (Z.shiftl (Z.land (b2z s1) maskx) 6))
                             (Z.land (b2z s2) maskx) in
              if (rune2Max <? r)
                 && negb ((surrogateMin <=? r) && (r <=? surrogateMax))
              then (r, 3%nat) else (runeError, 1%nat)
            else (runeError, 1%nat)
        | _ => (runeError, 1%nat)
        end
      else if (t4 <=? b2z s0) && (b2z s0 <? t5) then
        match rest with
        | s1 :: s2 :: s3 :: _ =>
            if is_cont s1 && is_cont s2 && is_cont s3 then
              let r := Z.lor (Z.lor (Z.lor
                         (Z.shiftl (Z.land (b2z s0) mask4) 18)
                         (Z.shiftl (Z.land (b2z s1) maskx) 12))
                         (Z.shiftl (Z.land (b2z s2) maskx) 6))
                         (Z.land (b2z s3) maskx) in
              if (rune3Max <? r) && (r <=? maxRune)
              then (r, 4%nat) else (runeError, 1%nat)
            else (runeError, 1%nat)
        | _ => (runeError, 1%nat)
        end
      else (runeError, 1%nat)
  end.

(** The loop [for _, r := range s] of [stringtoslicerune]: an ASCII byte
    is its own rune, any other position goes through [decoderune].  Every
    round takes at least one byte, so [length s] rounds are enough. *)
Fixpoint range_runes (fuel : nat) (s : list byte) : list rune :=
  match fuel with
  | O => []
  | S fuel' =>
      match s with
      | [] => []
      | c :: rest =>
          if b2z c <? runeSelf then b2z c :: range_runes fuel' rest
          else
            let '(r, width) := decoderune s in
            r :: range_runes fuel' (drop width s)
      end
  end.

(** [[]rune(string(b))]. *)
Definition stringtoslicerune (s : list byte) : list rune :=
  range_runes (length s) s.

(** The three-byte and four-byte forms written by [encoderune]. *)
Definition encode3 (r : rune) : list byte :=
  [ z2b (Z.lor t3 (b2z (z2b (Z.shiftr r 12))));
    z2b (Z.lor tx (Z.land (b2z (z2b (Z.shiftr r 6))) maskx));
    z2b (Z.lor tx (Z.land (b2z (z2b r)) maskx)) ].

Definition encode4 (r : rune) : list byte :=
  [ z2b (Z.lor t4 (b2z (z2b (Z.shiftr r 18))));
    z2b (Z.lor tx (Z.land (b2z (z2b (Z.shiftr r 12))) maskx));
    z2b (Z.lor tx (Z.land (b2z (z2b (Z.shiftr r 6))) maskx));
    z2b (Z.lor tx (Z.land (b2z (z2b r)) maskx)) ].

(** [encoderune(p, r)]: the bytes written to [p].  The switch is on
    [i := uint32(r)]. *)
Definition encoderune (r : rune) : list byte :=
  let i := r mod 2 ^ 32 in
  if i <=? rune1Max then [z2b r]
  else if i <=? rune2Max then
    [ z2b (Z.lor t2 (b2z (z2b (Z.shiftr r 6))));
      z2b (Z.lor tx (Z.land (b2z (z2b r)) maskx)) ]
  else if (maxRune <? i) || ((surrogateMin <=? i) && (i <=? surrogateMax))
  then encode3 runeError
  else if i <=? rune3Max then encode3 r
  else encode4 r.

(** [[]byte(string(a))] for a rune slice [a]. *)
Definition slicerunetostring (a : list rune) : list byte :=
  flat_map encoderune a.

(** The table [first] of unicode/utf8 with [acceptRanges]: for a leading
    byte, the length of the sequence and the range of its second byte;
    [None] is the entry [xx]. *)
Definition first (b : Z) : option (nat * (Z * Z)) :=
  if (0xC2 <=? b) && (b <=? 0xDF) then Some (2%nat, (locb, hicb))
  else if b =? 0xE0 then Some (3%nat, (0xA0, hicb))
  else if (0xE1 <=? b) && (b <=? 0xEC) then Some (3%nat, (locb, hicb))
  else if b =? 0xED then Some (3%nat, (locb, 0x9F))
  else if (0xEE <=? b) && (b <=? 0xEF) then Some (3%nat, (locb, hicb))
  else if b =? 0xF0 then Some (4%nat, (0x90, hicb))
  else if (0xF1 <=? b) && (b <=? 0xF3) then Some (4%nat, (locb, hicb))
  else if b =? 0xF4 then Some (4%nat, (locb, 0x8F))
  else None.

(** The loop of [utf8.Valid]. *)
Fixpoint Valid_loop (fuel : nat) (p : list byte) : bool :=
  match fuel with
  | O => match p with [] => true | _ => false end
  | S fuel' =>
      match p with
      | [] => true
      | p0 :: rest =>
          if b2z p0 <? runeSelf then Valid_loop fuel' rest
          else
            match first (b2z p0) with
            | None => false
            | Some (size, (lo, hi)) =>
                if (length p <? size)%nat then false
                else
                  match rest with
                  | p1 :: tail =>
                      if (b2z p1 <? lo) || (hi <? b2z p1) then false
                      else if (size =? 2)%nat then Valid_loop fuel' (drop size p)
                      else
                        match tail with
                        | p2 :: tail' =>
                            if negb (is_cont p2) then false
                            else if (size =? 3)%nat
                            then Valid_loop fuel' (drop size p)
                            else
                              match tail' with
                              | p3 :: _ =>
                                  if negb (is_cont p3) then false
                                  else Valid_loop fuel' (drop size p)
                              | [] => false
                              end
                        | [] => false
                        end
                  | [] => false
                  end
            end
      end
  end.

(** [utf8.Valid(p)]. *)
Definition Valid (p : list byte) : bool := Valid_loop (length p) p.

(** The well-formed sequences that start a valid buffer whose first byte
    is not ASCII, with the rest of the buffer. *)
Inductive sequence : list byte -> list byte -> Prop :=
  | seq2 s0 s1 tail :
      0xC2 <= b2z s0 <= 0xDF -> 0x80 <= b2z s1 <= 0xBF ->
      sequence (s0 :: s1 :: tail) tail
  | seq3 s0 s1 s2 tail :
      0xE0 <= b2z s0 <= 0xEF ->
      0x80 <= b2z s1 <= 0xBF -> 0x80 <= b2z s2 <= 0xBF ->
      (b2z s0 = 0xE0 -> 0xA0 <= b2z s1) ->
      (b2z s0 = 0xED -> b2z s1 <= 0x9F) ->
      sequence (s0 :: s1 :: s2 :: tail) tail
  | seq4 s0 s1 s2 s3 tail :
      0xF0 <= b2z s0 <= 0xF4 -> 0x80 <= b2z s1 <= 0xBF ->
      0x80 <= b2z s2 <= 0xBF -> 0x80 <= b2z s3 <= 0xBF ->
      (b2z s0 = 0xF0 -> 0x90 <= b2z s1) ->
      (b2z s0 = 0xF4 -> b2z s1 <= 0x8F) ->
      sequence (s0 :: s1 :: s2 :: s3 :: tail) tail.

(** ** Runes and buffers that are well formed *)

(** [utf8.ValidRune(r)]: a code point that is not a surrogate. *)
Definition ValidRune (r : rune) : bool :=
  ((0 <=? r) && (r <? surrogateMin))
  || ((surrogateMax <? r) && (r <=? maxRune)).

(** The values of the type [int32]. *)
Definition is_int32 (r : rune) : Prop := - 2 ^ 31 <= r < 2 ^ 31.

(** The encoding of [runeError], U+FFFD. *)
Definition replacement : list byte := map z2b [0xEF; 0xBF; 0xBD].

(** A buffer made of ASCII bytes and well-formed sequences. *)
Inductive wellformed : list byte -> Prop :=
  | wf_nil : wellformed []
  | wf_ascii c rest :
      b2z c < runeSelf -> wellformed rest -> wellformed (c :: rest)
  | wf_sequence p tail :
      sequence p tail -> wellformed tail -> wellformed p.

End Utf8.

(* ===================================================================== *)
(** * Menu registry and line reader ([console.go])                         *)
(* ===================================================================== *)

Module Console.
Import Utf8.

(** A handle of a history source ([readline.History] is an interface; the
    nil interface is [None] where a handle may be missing). *)
Definition HistorySource := nat.

(** [Menu]: the type is declared in a file of the package that is not
    under src/; these are the fields console.go reads and writes
    ([active], [historyNames], [histories]) and the name of the menu. *)
Record Menu := {
  name : string;
  active : bool;
  historyNames : list string;
  histories : gmap string HistorySource
}.

(** A value of the configuration of the line reader. *)
Inductive config_value :=
  | CfgBool (b : bool)
  | CfgString (s : string)
  | CfgInt (n : Z).

(** [readline.Shell], as far as console.go uses it: the configuration and
    the history sources bound to the line reader, in the order they were
    added. *)
Record Shell := {
  Config : gmap string config_value;
  History : list (string * option HistorySource)
}.

(** [Console]: the registry maps a name to its menu.  [NewMenu] is the
    only writer of the registry and stores a fresh menu every time, so no
    two names share a menu and a pointer to a registered menu is its
    name. *)
Record Console := {
  shell : Shell;
  menus : gmap string Menu
}.

(** [cfg.Set(name, value)]. *)
Definition Config_Set (key : string) (v : config_value) (sh : Shell) : Shell :=
  {| Config := <[key := v]> (Config sh); History := History sh |}.

(** [cfg.GetString(name)]: the empty string unless a string is stored. *)
Definition Config_GetString (key : string) (sh : Shell) : string :=
  match Config sh !! key with
  | Some (CfgString v) => v
  | _ => ""
  end.

(** [shell.History.Add(name, source)] binds one more source. *)
Definition History_Add (key : string) (source : option HistorySource)
    (sh : Shell) : Shell :=
  {| Config := Config sh; History := History sh ++ [(key, source)] |}.

(** [shell.History.Delete()] without arguments unbinds every source. *)
Definition History_Delete (sh : Shell) : Shell :=
  {| Config := Config sh; History := [] |}.

Definition with_shell (f : Shell -> Shell) (c : Console) : Console :=
  {| shell := f (shell c); menus := menus c |}.

(** [menu.active = b] on the menu registered under [key]. *)
Definition set_active (b : bool) (m : Menu) : Menu :=
  {| name := name m; active := b;
     historyNames := historyNames m; histories := histories m |}.

Definition write_active (b : bool) (key : string) (c : Console) : Console :=
  {| shell := shell c; menus := alter (set_active b) key (menus c) |}.

(** The loop [for _, name := range m.historyNames] that binds the sources
    of [m]; a name without a handle in [m.histories] binds nil. *)
Definition bind_histories (m : Menu) (c : Console) : Console :=
  foldl (fun c' key => with_shell (History_Add key (histories m !! key)) c')
        c (historyNames m).

(** The bindings the loop leaves behind on an empty line reader. *)
Definition sources (m : Menu) : list (string * option HistorySource) :=
  map (fun key => (key, histories m !! key)) (historyNames m).

(** ** [activeMenu] *)

(** [for _, menu := range c.menus { if menu.active { return menu } }]:
    Go ranges over a map in an order of its own choice, here [order]. *)
Fixpoint first_active (order : list (string * Menu)) : option (string * Menu) :=
  match order with
  | [] => None
  | (key, menu) :: rest =>
      if active menu then Some (key, menu) else first_active rest
  end.

(** [order] is an order in which Go may range over the registry. *)
Definition range_order (c : Console) (order : list (string * Menu)) : Prop :=
  order ≡ₚ map_to_list (menus c).

(** [func (c *Console) activeMenu() *Menu]: [None] is the nil pointer. *)
Definition activeMenu (order : list (string * Menu)) (c : Console)
  : option (string * Menu) :=
  match first_active order with
  | Some found => Some found
  | None => (fun menu => (""%string, menu)) <$> menus c !! ""%string
  end.

(** ** [SwitchMenu] *)

(** [if current != nil { current.active = false }]. *)
Definition deactivate (current : option (string * Menu)) (c : Console) : Console :=
  match current with
  | Some (key, _) => write_active false key c
  | None => c
  end.

(** [func (c *Console) SwitchMenu(menu string)], without the guard. *)
Definition SwitchMenu (order : list (string * Menu)) (menu : string)
    (c : Console) : Console :=
  match menus c !! menu with
  | Some target =>
      let current := activeMenu order c in
      let c := deactivate current c in
      let c := write_active true menu c in
      let c := with_shell History_Delete c in
      bind_histories target c
  | None => c
  end.

(** [func (c *Console) Menu(name string) *Menu]. *)
Definition GetMenu (key : string) (c : Console) : option Menu := menus c !! key.

(** [func (c *Console) setupShell()]. *)
Definition setupShell (c : Console) : Console :=
  with_shell (fun sh =>
    Config_Set "menu-complete-display-prefix" (CfgBool true)
      (Config_Set "skip-completed-text" (CfgBool true) sh)) c.

Section Registry.

(** [readline.NewShell(inputrc.WithApp(strings.ToLower(app)))], the line
    reader a new console starts with. *)
Variable NewShell : string -> Shell.

(** Modelled from the spec: [newMenu(name, c)] is in a file of the
    package that is not under src/.  A new menu is not automatically
    marked active; its history and prompt are left to the function. *)
Variable newMenu : string -> Console -> Menu.

(** [func (c *Console) NewMenu(name string) *Menu]: the pointer it
    returns is the name. *)
Definition NewMenu (key : string) (c : Console) : string * Console :=
  let menu := newMenu key c in
  (key, {| shell := shell c; menus := <[key := menu]> (menus c) |}).

(** [func New(app string) *Console]. *)
Definition New (app : string) : Console :=
  let console := {| shell := NewShell app; menus := ∅ |} in
  let console := setupShell console in
  let '(defaultMenu, console) := NewMenu "" console in
  let console := write_active true defaultMenu console in
  match menus console !! defaultMenu with
  | Some menu => bind_histories menu console
  | None => console
  end.

(** The states a console goes through from [New] by calls of [NewMenu]
    and [SwitchMenu]. *)
Inductive reachable : Console -> Prop :=
  | reach_New app : reachable (New app)
  | reach_NewMenu key c : reachable c -> reachable (NewMenu key c).2
  | reach_SwitchMenu order menu c :
      reachable c -> range_order c order ->
      reachable (SwitchMenu order menu c).

End Registry.

(** At most one menu of the registry is marked active. *)
Definition at_most_one_active (c : Console) : Prop :=
  forall k1 m1 k2 m2,
    menus c !! k1 = Some m1 -> active m1 = true ->
    menus c !! k2 = Some m2 -> active m2 = true -> k1 = k2.

(** No menu of the registry is marked active. *)
Definition none_active (c : Console) : Prop :=
  forall key menu, menus c !! key = Some menu -> active menu = false.

(** What [activeMenu] returns: the menu marked active, or, when none is,
    the menu registered under the empty name. *)
Definition activeMenu_spec (c : Console) (result : option (string * Menu)) : Prop :=
  exists key menu,
    result = Some (key, menu) /\ menus c !! key = Some menu /\
    (active menu = true \/ (none_active c /\ key = ""%string)).

(** ** [SystemEditor] *)

Section Editor.

(** [c.shell.Buffers.EditBuffer(buf, name, filetype, emacs)], the
    external editor: the edited runes and an error (nil is [None]). *)
Variable EditBuffer :
  list rune -> string -> string -> bool -> list rune * option string.

(** [func (c *Console) SystemEditor(buffer []byte, filetype string)]. *)
Definition SystemEditor (c : Console) (buffer : list byte) (filetype : string)
  : list byte * option string :=
  let emacs := String.eqb (Config_GetString "editing-mode" (shell c)) "emacs" in
  let '(edited, err) :=
    EditBuffer (stringtoslicerune buffer) "" filetype emacs in
  (slicerunetostring edited, err).

End Editor.

(** ** Sessions used as examples *)

(** The session of the scenario: the default menu with the history source
    "main", marked active and bound, and a menu "sub" with the source
    "alt". *)
Definition default_menu : Menu :=
  {| name := ""; active := true; historyNames := ["main"%string];
     histories := {["main"%string := 1%nat]} |}.

Definition sub_menu : Menu :=
  {| name := "sub"; active := false; historyNames := ["alt"%string];
     histories := {["alt"%string := 2%nat]} |}.

Definition session : Console :=
  {| shell := {| Config := ∅; History := [("main"%string, Some 1%nat)] |};
     menus := <["sub"%string := sub_menu]> {[""%string := default_menu]} |}.

(** A line reader without options and without history sources, and new
    menus that are not active and carry one in-memory source. *)
Definition plain_shell (app : string) : Shell := {| Config := ∅; History := [] |}.

Definition plain_menu (key : string) (c : Console) : Menu :=
  {| name := key; active := false; historyNames := ["default"%string];
     histories := {["default"%string := 0%nat]} |}.

(** The default menu is created again on a new console: no menu is marked
    active, and [activeMenu] returns the new default menu. *)
Definition recreated_default : Console :=
  (NewMenu plain_menu "" (New plain_shell plain_menu "app")).2.

(** The default menu is marked active, and the caller gave it the history
    source "main" after the line reader was bound to the source "old". *)
Definition rebound_later : Console :=
  {| shell := {| Config := ∅; History := [("old"%string, Some 9%nat)] |};
     menus := {[""%string := default_menu]} |}.

(** Idempotence of the switch, as the specification states it: when
    [menu] is the name of the menu
    [activeMenu] returns, [SwitchMenu menu] leaves the history bindings
    and the flag of every menu as they were. *)
Definition switch_to_active_unchanged (c : Console)
    (order : list (string * Menu)) (menu : string) : Prop :=
  range_order c order ->
  (exists current, activeMenu order c = Some (menu, current)) ->
  History (shell (SwitchMenu order menu c)) = History (shell c) /\
  forall key,
    active <$> menus (SwitchMenu order menu c) !! key
      = active <$> menus c !! key.

(** A console on which "sub" was created and then switched to. *)
Definition switched_to_sub : Console :=
  let created := (NewMenu plain_menu "sub" (New plain_shell plain_menu "app")).2 in
  SwitchMenu (map_to_list (menus created)) "sub" created.

(** The invariant of the registry. *)
Definition registry_inv (c : Console) : Prop :=
  at_most_one_active c /\ is_Some (menus c !! ""%string).

(** An editor that changes nothing, and the bytes of "é€" followed by
    an emoji and a letter. *)
Definition idle_editor (buf : list rune) (name filetype : string) (emacs : bool)
  : list rune * option string := (buf, None).

Definition sample_buffer : list byte :=
  map z2b [0xC3; 0xA9; 0xE2; 0x82; 0xAC; 0xF0; 0x9F; 0x98; 0x80; 0x41].

(** ** More of the registry *)

(** [func (c *Console) CurrentMenu() *Menu]: [c.activeMenu()] under the
    guard. *)
Definition CurrentMenu (order : list (string * Menu)) (c : Console)
  : option (string * Menu) := activeMenu order c.

(** What a menu is apart from its flag. *)
Definition settings (m : Menu) : string * list string * gmap string HistorySource :=
  (name m, historyNames m, histories m).

(** The console [New] works on when it creates the default menu. *)
Definition fresh_console (NewShell : string -> Shell) (app : string) : Console :=
  setupShell {| shell := NewShell app; menus := ∅ |}.

(** The call [SystemEditor] makes to the editor: its result. *)
Definition editor_result
    (EditBuffer : list rune -> string -> string -> bool -> list rune * option string)
    (c : Console) (buffer : list byte) (filetype : string)
  : list rune * option string :=
  EditBuffer (stringtoslicerune buffer) "" filetype
    (String.eqb (Config_GetString "editing-mode" (shell c)) "emacs").

(** An editor that gives back the runes [edited] and no error. *)
Definition editor_returning (edited : list rune)
    (buf : list rune) (name filetype : string) (emacs : bool)
  : list rune * option string := (edited, None).

(** The line reader is bound to the sources of every menu that is marked
    active. *)
Definition bound_to_active (c : Console) : Prop :=
  forall key menu,
    menus c !! key = Some menu -> active menu = true ->
    History (shell c) = sources menu.

End Console.

(* ===================================================================== *)
(** * The guard of the registry ([sync.RWMutex]) and its threads           *)
(* ===================================================================== *)

(** The methods of console.go as sequences of steps on the shared console,
    each step one read or one write, run by threads that interleave.  *)
Module Guard.
Import Console.

(** [sync.RWMutex]: the number of holders of the read lock and whether
    the write lock is held. *)
Record RWMutex := { readers : nat; writer : bool }.

(** [RLock]/[RUnlock] take and give back the guard in [Shared] mode,
    [Lock]/[Unlock] in [Exclusive] mode. *)
Inductive mode := Shared | Exclusive.

(** The steps of a method, in program order. *)
Inductive prog : Type :=
  | Done
  | Acquire (m : mode) (k : prog)
  | Release (m : mode) (k : prog)
  | Load {A : Type} (read : Console -> A) (k : A -> prog)
  | Store (write : Console -> Console) (k : prog)
  | Report (seen : option string) (k : prog).

Section Methods.

(** The order in which Go ranges over the registry, for each state of
    the console. *)
Variable order_of : Console -> list (string * Menu).

(** [SwitchMenu]: [c.mutex.RLock()], the deferred [c.mutex.RUnlock()],
    and the body of the method step by step. *)
Definition SwitchMenu_prog (menu : string) : prog :=
  Acquire Shared
    (Load (fun c => menus c !! menu) (fun found =>
       match found with
       | Some target =>
           Load (fun c => activeMenu (order_of c) c) (fun current =>
             Store (deactivate current)
               (Store (write_active true menu)
                  (Store (with_shell History_Delete)
                     (foldr
                        (fun key k =>
                           Store (with_shell
                                    (History_Add key (histories target !! key))) k)
                        (Release Shared Done)
                        (historyNames target)))))
       | None => Release Shared Done
       end)).

(** [reloadConfig]: [c.mutex.RLock()], [menu := c.activeMenu()] and the
    use of that menu, reported here by its name. *)
Definition reloadConfig_prog : prog :=
  Acquire Shared
    (Load (fun c => activeMenu (order_of c) c) (fun menu =>
       Report (fst <$> menu) (Release Shared Done))).

(** [CurrentMenu]: [c.mutex.Lock()] and [return c.activeMenu()]. *)
Definition CurrentMenu_prog : prog :=
  Acquire Exclusive
    (Load (fun c => activeMenu (order_of c) c) (fun menu =>
       Report (fst <$> menu) (Release Exclusive Done))).

End Methods.

(** Go ranges over the registry in the order of [map_to_list]. *)
Definition listed_order (c : Console) : list (string * Menu) :=
  map_to_list (menus c).

(** A program run alone, from its first step to its last. *)
Fixpoint solo (p : prog) (c : Console) : Console :=
  match p with
  | Done => c
  | Acquire _ k => solo k c
  | Release _ k => solo k c
  | Load read k => solo (k (read c)) c
  | Store write k => solo k (write c)
  | Report _ k => solo k c
  end.

(** The shared console, its guard, the threads with what is left of their
    programs, and what the threads reported. *)
Record machine := {
  console : Console;
  mutex : RWMutex;
  threads : list prog;
  reports : list (nat * option string)
}.

(** One step of thread [i]; [None] when the thread is over or blocked. *)
Definition step (i : nat) (s : machine) : option machine :=
  match threads s !! i with
  | None | Some Done => None
  | Some (Acquire Shared k) =>
      if writer (mutex s) then None
      else Some {| console := console s;
                   mutex := {| readers := S (readers (mutex s)); writer := false |};
                   threads := <[i := k]> (threads s); reports := reports s |}
  | Some (Acquire Exclusive k) =>
      if writer (mutex s) || negb (readers (mutex s) =? 0)%nat then None
      else Some {| console := console s;
                   mutex := {| readers := readers (mutex s); writer := true |};
                   threads := <[i := k]> (threads s); reports := reports s |}
  | Some (Release Shared k) =>
      Some {| console := console s;
              mutex := {| readers := pred (readers (mutex s));
                          writer := writer (mutex s) |};
              threads := <[i := k]> (threads s); reports := reports s |}
  | Some (Release Exclusive k) =>
      Some {| console := console s;
              mutex := {| readers := readers (mutex s); writer := false |};
              threads := <[i := k]> (threads s); reports := reports s |}
  | Some (Load read k) =>
      Some {| console := console s; mutex := mutex s;
              threads := <[i := k (read (console s))]> (threads s);
              reports := reports s |}
  | Some (Store write k) =>
      Some {| console := write (console s); mutex := mutex s;
              threads := <[i := k]> (threads s); reports := reports s |}
  | Some (Report seen k) =>
      Some {| console := console s; mutex := mutex s;
              threads := <[i := k]> (threads s);
              reports := reports s ++ [(i, seen)] |}
  end.

(** The steps of a schedule, one thread index after the other. *)
Fixpoint run (schedule : list nat) (s : machine) : option machine :=
  match schedule with
  | [] => Some s
  | i :: rest => match step i s with Some s' => run rest s' | None => None end
  end.

Definition all_done (s : machine) : bool :=
  forallb (fun p => match p with Done => true | _ => false end) (threads s).

(** A console with the default menu, the menu "a" marked active and bound
    to the line reader, and the menu "b". *)
Definition menu_of (key source : string) (handle : nat) (flag : bool) : Menu :=
  {| name := key; active := flag; historyNames := [source];
     histories := {[source := handle]} |}.

Definition three_menus : Console :=
  {| shell := {| Config := ∅; History := [("ha"%string, Some 1%nat)] |};
     menus := <["b"%string := menu_of "b" "hb" 2 false]>
                (<["a"%string := menu_of "a" "ha" 1 true]>
                   {[""%string := menu_of "" "h" 0 false]}) |}.

(** Thread 0 switches to "b" while thread 1 reloads the configuration. *)
Definition switch_and_reload : machine :=
  {| console := three_menus;
     mutex := {| readers := 0; writer := false |};
     threads := [SwitchMenu_prog listed_order "b"; reloadConfig_prog listed_order];
     reports := [] |}.

(** Thread 0 up to and including [current.active = false], then thread 1
    from [RLock] to [RUnlock], then the rest of thread 0. *)
Definition reload_in_the_middle : list nat :=
  [0; 0; 0; 0; 1; 1; 1; 1; 0; 0; 0; 0]%nat.

(** ** A switch beside a call of [CurrentMenu] *)

(** The steps of a method between [RLock] and [RUnlock]. *)
Inductive body : prog -> Prop :=
  | body_release : body (Release Shared Done)
  | body_load (A : Type) (read : Console -> A) (k : A -> prog) :
      (forall a, body (k a)) -> body (Load read k)
  | body_store (write : Console -> Console) (k : prog) :
      body k -> body (Store write k).

Section SwitchAndCurrent.

Variable order_of : Console -> list (string * Menu).
Variable before : Console.
Variable menu : string.

(** The console a switch gives when it runs alone. *)
Definition after : Console := SwitchMenu (order_of before) menu before.

(** Thread 0 calls [SwitchMenu(menu)], thread 1 calls [CurrentMenu()]. *)
Definition switch_and_current : machine :=
  {| console := before;
     mutex := {| readers := 0; writer := false |};
     threads := [SwitchMenu_prog order_of menu; CurrentMenu_prog order_of];
     reports := [] |}.

(** The active menu of the console before the switch or after it. *)
Definition settled (seen : option string) : Prop :=
  seen = fst <$> activeMenu (order_of before) before \/
  seen = fst <$> activeMenu (order_of after) after.

(** Where thread 0 is: before [RLock], between [RLock] and [RUnlock], or
    at its end. *)
Definition switch_at (t0 : prog) (s : machine) : Prop :=
  (exists p, t0 = Acquire Shared p /\ body p /\ console s = before /\
             solo p before = after /\ readers (mutex s) = 0%nat) \/
  (body t0 /\ solo t0 (console s) = after /\ readers (mutex s) = 1%nat) \/
  (t0 = Done /\ console s = after /\ readers (mutex s) = 0%nat).

(** What is left of [CurrentMenu] after [Lock]. *)
Definition current_locked : prog :=
  Load (fun c => activeMenu (order_of c) c) (fun found =>
    Report (fst <$> found) (Release Exclusive Done)).

(** Where thread 1 is. *)
Definition current_at (t1 : prog) (s : machine) : Prop :=
  (t1 = CurrentMenu_prog order_of /\ writer (mutex s) = false) \/
  (t1 = current_locked /\ writer (mutex s) = true) \/
  (exists seen, t1 = Report seen (Release Exclusive Done) /\ settled seen /\
                writer (mutex s) = true) \/
  (t1 = Release Exclusive Done /\ writer (mutex s) = true) \/
  (t1 = Done /\ writer (mutex s) = false).

(** What holds of the machine after every step. *)
Definition exclusion (s : machine) : Prop :=
  exists t0 t1,
    threads s = [t0; t1] /\ switch_at t0 s /\ current_at t1 s /\
    (writer (mutex s) = true -> readers (mutex s) = 0%nat) /\
    Forall (fun report => settled report.2) (reports s).

End SwitchAndCurrent.

(** [CurrentMenu] from [Lock] to [Unlock], then the whole switch. *)
Definition current_first : list nat :=
  [1; 1; 1; 1; 0; 0; 0; 0; 0; 0; 0; 0]%nat.

End Guard.


(* ===================================================================== *)
(** * Properties of the execution controller                               *)
(* ===================================================================== *)

Module ExecuteFacts.
Import Execute.

Section Controller.

Variable parserError : string.
Variable ErrHelp : ErrorType.
Variable ParseArgs : list string -> completion (list string * option error).
Variable handleHelpFlag : list string -> completion unit.

Local Abbreviation execute := (execute parserError ErrHelp ParseArgs handleHelpFlag).
Local Abbreviation body_events := (body_events parserError ErrHelp ParseArgs).

Lemma body_events_no_flag_write args :
  forallb (fun e => negb (writes_flag e)) (body_events args) = true.
Proof.
  unfold body_events.
  destruct (ParseArgs args) as [[result [[[pe|]|t]|]]|v]; try reflexivity.
  destruct (Type_ pe =? ErrHelp)%N; reflexivity.
Qed.

(** The log of one call, whatever the parser and the help view do. *)
Lemma execute_events args s :
  events (execute args s).1 =
    events s ++ [EvSetIsExecuting true; EvParseArgs args]
             ++ body_events args ++ [EvSetIsExecuting false].
Proof.
  unfold execute, body_events, bind, defer, call_ParseArgs,
    call_handleHelpFlag, set_isExecuting, Println, ret, panic, log; simpl.
  destruct (ParseArgs args) as [[result [[[pe|]|t]|]]|v]; simpl;
    try (rewrite <- !app_assoc; reflexivity).
  destruct (Type_ pe =? ErrHelp)%N; simpl.
  - destruct (handleHelpFlag result); simpl;
      rewrite <- !app_assoc; reflexivity.
  - rewrite <- !app_assoc; reflexivity.
Qed.

Lemma execute_flag_false args s : isExecuting (execute args s).1 = false.
Proof.
  unfold execute, bind, defer, call_ParseArgs, call_handleHelpFlag,
    set_isExecuting, Println, ret, panic, log; simpl.
  destruct (ParseArgs args) as [[result [[[pe|]|t]|]]|v]; simpl;
    try reflexivity.
  destruct (Type_ pe =? ErrHelp)%N; simpl; [|reflexivity].
  destruct (handleHelpFlag result); reflexivity.
Qed.

End Controller.


(** C2, counterexample.  The parser answers the foreign error "boom" on
    the tokens ["cmd"]: [execute] has no result and leaves exactly what a
    successful parse leaves, so no observer gets the error back. *)
Lemma foreign_error_not_surfaced :
  ~ foreign_error_surfaced "parser error: " 5%N
      (const_parser (Returned ([], Some (Foreign "boom"))))
      (fun _ => Returned tt) ["cmd"] idle.
Proof.
  intros H.
  destruct (H [] "boom" eq_refl) as [_ [observe [Herr Hok]]].
  specialize (Hok (const_parser (Returned ([], None))) eq_refl).
  change (execute "parser error: " 5%N
            (const_parser (Returned ([], None))) (fun _ => Returned tt)
            ["cmd"] idle)
    with (execute "parser error: " 5%N
            (const_parser (Returned ([], Some (Foreign "boom"))))
            (fun _ => Returned tt) ["cmd"] idle) in Hok.
  congruence.
Qed.

(** C2, amended.  On a foreign error [execute] prints nothing, calls
    neither the help view nor [Println], and returns normally with the flag
    false; the error is dropped: the call leaves exactly what it leaves
    when the parser succeeds. *)
Theorem execute_foreign_error_dropped
    (parserError : string) (ErrHelp : ErrorType)
    (ParseArgs ParseArgs' : list string -> completion (list string * option error))
    (handleHelpFlag : list string -> completion unit)
    (args : list string) (s : State)
    (result result' : list string) (text : string) :
  ParseArgs args = Returned (result, Some (Foreign text)) ->
  ParseArgs' args = Returned (result', None) ->
  execute parserError ErrHelp ParseArgs handleHelpFlag args s =
    ({| isExecuting := false; stdout := stdout s;
        events := events s ++ [EvSetIsExecuting true; EvParseArgs args;
                               EvSetIsExecuting false] |}, Returned tt) /\
  execute parserError ErrHelp ParseArgs handleHelpFlag args s =
    execute parserError ErrHelp ParseArgs' handleHelpFlag args s.
Proof.
  intros Herr Hok.
  unfold execute, bind, defer, call_ParseArgs, set_isExecuting, ret, log; simpl.
  rewrite Herr, Hok; simpl. rewrite <- !app_assoc. split; reflexivity.
Qed.

Lemma execute_foreign_error_dropped_witness :
  const_parser (Returned (["x"], Some (Foreign "boom"))) ["cmd"; "x"]
    = Returned (["x"], Some (Foreign "boom")) /\
  const_parser (Returned ([], None)) ["cmd"; "x"] = Returned ([], None) /\
  execute "parser error: " 5%N
      (const_parser (Returned (["x"], Some (Foreign "boom"))))
      (fun _ => Returned tt) ["cmd"; "x"] idle =
    ({| isExecuting := false; stdout := "";
        events := [EvSetIsExecuting true; EvParseArgs ["cmd"; "x"];
                   EvSetIsExecuting false] |}, Returned tt).
Proof.
  split; [reflexivity | split; [reflexivity |]].
  exact (proj1 (execute_foreign_error_dropped "parser error: " 5%N
    (const_parser (Returned (["x"], Some (Foreign "boom"))))
    (const_parser (Returned ([], None)))
    (fun _ => Returned tt) ["cmd"; "x"] idle ["x"] [] "boom"
    eq_refl eq_refl)).
Defined.

(** C3. When the parser reports a structured error of kind help requested,
    [execute] prints nothing (standard output is as before, no [Println]
    step) and calls the help view once, on the result the parser returned
    with the error; the call ends as the help view ends. *)
Theorem execute_help_requested
    (parserError : string) (ErrHelp : ErrorType)
    (ParseArgs : list string -> completion (list string * option error))
    (handleHelpFlag : list string -> completion unit)
    (args : list string) (s : State)
    (result : list string) (parserErr : flags_Error) :
  ParseArgs args = Returned (result, Some (FlagsError (Some parserErr))) ->
  Type_ parserErr = ErrHelp ->
  execute parserError ErrHelp ParseArgs handleHelpFlag args s =
    ({| isExecuting := false; stdout := stdout s;
        events := events s ++ [EvSetIsExecuting true; EvParseArgs args;
                               EvHandleHelpFlag result;
                               EvSetIsExecuting false] |},
     handleHelpFlag result).
Proof.
  intros Herr Hkind.
  unfold execute, bind, defer, call_ParseArgs, call_handleHelpFlag,
    set_isExecuting, ret, log; simpl.
  rewrite Herr; simpl. rewrite Hkind, N.eqb_refl; simpl.
  rewrite <- !app_assoc.
  destruct (handleHelpFlag result) as [[]|v]; reflexivity.
Qed.

Lemma execute_help_requested_witness :
  const_parser (Returned (["--help"],
      Some (FlagsError (Some {| Type_ := 5%N; Message := "Usage: app" |}))))
    ["--help"]
    = Returned (["--help"],
        Some (FlagsError (Some {| Type_ := 5%N; Message := "Usage: app" |}))) /\
  Type_ {| Type_ := 5%N; Message := "Usage: app" |} = 5%N /\
  execute "parser error: " 5%N
      (const_parser (Returned (["--help"],
         Some (FlagsError (Some {| Type_ := 5%N; Message := "Usage: app" |})))))
      (fun _ => Returned tt) ["--help"] idle =
    ({| isExecuting := false; stdout := "";
        events := [EvSetIsExecuting true; EvParseArgs ["--help"];
                   EvHandleHelpFlag ["--help"]; EvSetIsExecuting false] |},
     Returned tt).
Proof.
  split; [reflexivity | split; [reflexivity |]].
  exact (execute_help_requested "parser error: " 5%N
    (const_parser (Returned (["--help"],
       Some (FlagsError (Some {| Type_ := 5%N; Message := "Usage: app" |})))))
    (fun _ => Returned tt) ["--help"] idle ["--help"]
    {| Type_ := 5%N; Message := "Usage: app" |} eq_refl eq_refl).
Defined.

(** C4. When the parser reports a structured error of any other kind,
    [execute] prints one line, the label [parserError] followed by the
    display text of the error, calls neither the help view nor [Println]
    again, and returns with the flag false. *)
Theorem execute_parser_error_printed
    (parserError : string) (ErrHelp : ErrorType)
    (ParseArgs : list string -> completion (list string * option error))
    (handleHelpFlag : list string -> completion unit)
    (args : list string) (s : State)
    (result : list string) (parserErr : flags_Error) :
  ParseArgs args = Returned (result, Some (FlagsError (Some parserErr))) ->
  Type_ parserErr <> ErrHelp ->
  execute parserError ErrHelp ParseArgs handleHelpFlag args s =
    ({| isExecuting := false;
        stdout := stdout s +:+ (parserError +:+ Error parserErr) +:+ newline;
        events := events s ++ [EvSetIsExecuting true; EvParseArgs args;
                               EvPrintln (parserError +:+ Error parserErr);
                               EvSetIsExecuting false] |},
     Returned tt).
Proof.
  intros Herr Hkind.
  unfold execute, bind, defer, call_ParseArgs, Println,
    set_isExecuting, ret, log; simpl.
  rewrite Herr; simpl.
  destruct (N.eqb_spec (Type_ parserErr) ErrHelp) as [Heq|_]; [contradiction|].
  simpl. rewrite <- !app_assoc. reflexivity.
Qed.

Lemma execute_parser_error_printed_witness :
  const_parser (Returned ([],
      Some (FlagsError (Some {| Type_ := 12%N; Message := "unknown command" |}))))
    ["badcmd"]
    = Returned ([],
        Some (FlagsError (Some {| Type_ := 12%N; Message := "unknown command" |}))) /\
  Type_ {| Type_ := 12%N; Message := "unknown command" |} <> 5%N /\
  execute "parser error: " 5%N
      (const_parser (Returned ([],
         Some (FlagsError (Some {| Type_ := 12%N; Message := "unknown command" |})))))
      (fun _ => Returned tt) ["badcmd"] idle =
    ({| isExecuting := false;
        stdout := "parser error: unknown command" +:+ newline;
        events := [EvSetIsExecuting true; EvParseArgs ["badcmd"];
                   EvPrintln "parser error: unknown command";
                   EvSetIsExecuting false] |},
     Returned tt).
Proof.
  split; [reflexivity | split; [discriminate |]].
  exact (execute_parser_error_printed "parser error: " 5%N
    (const_parser (Returned ([],
       Some (FlagsError (Some {| Type_ := 12%N; Message := "unknown command" |})))))
    (fun _ => Returned tt) ["badcmd"] idle []
    {| Type_ := 12%N; Message := "unknown command" |} eq_refl
    ltac:(discriminate)).
Defined.

(** ** The other ways a call ends *)



(** A panic of the parser is not recovered: [execute] ends with the same
    panic value, after the deferred reset of the flag and without any
    output. *)
Theorem execute_parser_panic
    (parserError : string) (ErrHelp : ErrorType)
    (ParseArgs : list string -> completion (list string * option error))
    (handleHelpFlag : list string -> completion unit)
    (args : list string) (s : State) (v : string) :
  ParseArgs args = Panicked v ->
  execute parserError ErrHelp ParseArgs handleHelpFlag args s =
    ({| isExecuting := false; stdout := stdout s;
        events := events s ++ [EvSetIsExecuting true; EvParseArgs args;
                               EvSetIsExecuting false] |}, Panicked v).
Proof.
  intros Hpanic.
  unfold execute, bind, defer, call_ParseArgs, set_isExecuting, ret, log; simpl.
  rewrite Hpanic; simpl. rewrite <- !app_assoc. reflexivity.
Qed.

Lemma execute_parser_panic_witness :
  const_parser (Panicked "index out of range") ["cmd"]
    = Panicked "index out of range" /\
  execute "parser error: " 5%N (const_parser (Panicked "index out of range"))
      (fun _ => Returned tt) ["cmd"] idle =
    ({| isExecuting := false; stdout := "";
        events := [EvSetIsExecuting true; EvParseArgs ["cmd"];
                   EvSetIsExecuting false] |}, Panicked "index out of range").
Proof.
  split; [reflexivity|].
  exact (execute_parser_panic "parser error: " 5%N
    (const_parser (Panicked "index out of range")) (fun _ => Returned tt)
    ["cmd"] idle "index out of range" eq_refl).
Defined.

(** An error whose dynamic type is [*flags.Error] and whose pointer is nil
    passes the type assertion; reading [parserErr.Type] then panics with a
    nil dereference.  The flag is reset all the same and nothing is
    printed. *)
Theorem execute_nil_flags_error
    (parserError : string) (ErrHelp : ErrorType)
    (ParseArgs : list string -> completion (list string * option error))
    (handleHelpFlag : list string -> completion unit)
    (args : list string) (s : State) (result : list string) :
  ParseArgs args = Returned (result, Some (FlagsError None)) ->
  execute parserError ErrHelp ParseArgs handleHelpFlag args s =
    ({| isExecuting := false; stdout := stdout s;
        events := events s ++ [EvSetIsExecuting true; EvParseArgs args;
                               EvSetIsExecuting false] |},
     Panicked nil_dereference).
Proof.
  intros Hnil.
  unfold execute, bind, defer, call_ParseArgs, set_isExecuting, panic, log; simpl.
  rewrite Hnil; simpl. rewrite <- !app_assoc. reflexivity.
Qed.

Lemma execute_nil_flags_error_witness :
  const_parser (Returned ([], Some (FlagsError None))) ["cmd"]
    = Returned ([], Some (FlagsError None)) /\
  (execute "parser error: " 5%N
     (const_parser (Returned ([], Some (FlagsError None))))
     (fun _ => Returned tt) ["cmd"] idle).2 = Panicked nil_dereference.
Proof.
  split; [reflexivity|].
  exact (f_equal snd (execute_nil_flags_error "parser error: " 5%N
    (const_parser (Returned ([], Some (FlagsError None))))
    (fun _ => Returned tt) ["cmd"] idle [] eq_refl)).
Defined.

(** ** When [execute] prints *)

Lemma append_neq_self (s x : string) : x <> ""%string -> s +:+ x <> s.
Proof.
  intros Hx. induction s as [|a s IH]; simpl.
  - exact Hx.
  - intros [= H]. exact (IH H).
Qed.

Lemma line_not_empty (line : string) : line +:+ newline <> ""%string.
Proof. destruct line; discriminate. Qed.


End ExecuteFacts.

(* ===================================================================== *)
(** * Properties of the byte/rune conversions                              *)
(* ===================================================================== *)

Module Utf8Facts.
Import Utf8.

(** ** Bytes as numbers *)

Lemma b2z_range (b : byte) : 0 <= b2z b < 256.
Proof.
  unfold b2z. pose proof (Byte.to_N_bounded b). lia.
Qed.

Lemma z2b_b2z (b : byte) : z2b (b2z b) = b.
Proof.
  unfold z2b. pose proof (b2z_range b) as Hb.
  change 0xFF with (Z.ones 8). rewrite Z.land_ones by lia.
  rewrite Z.mod_small by (change (2 ^ 8) with 256; lia).
  unfold b2z. rewrite N2Z.id, Byte.of_to_N. reflexivity.
Qed.

Lemma z2b_of (x : Z) (b : byte) : x = b2z b -> z2b x = b.
Proof. intros ->. apply z2b_b2z. Qed.

Lemma b2z_z2b (x : Z) : b2z (z2b x) = x mod 256.
Proof.
  unfold z2b. change 0xFF with (Z.ones 8). rewrite Z.land_ones by lia.
  change (2 ^ 8) with 256.
  pose proof (Z.mod_pos_bound x 256 ltac:(lia)) as Hm.
  destruct (Byte.of_N (Z.to_N (x mod 256))) as [b|] eqn:E.
  - apply Byte.to_of_N in E. unfold b2z. rewrite E. lia.
  - apply Byte.of_N_None_iff in E. lia.
Qed.

(** ** Bit operations as arithmetic *)

Ltac pow_lia :=
  change (2 ^ 18) with 262144 in *; change (2 ^ 12) with 4096 in *;
  change (2 ^ 6) with 64 in *; lia.

Lemma land_shifted_low (k n y : Z) :
  0 <= n -> 0 <= y < 2 ^ n -> Z.land (k * 2 ^ n) y = 0.
Proof.
  intros Hn Hy. apply Z.bits_inj'. intros i Hi.
  rewrite Z.land_spec, Z.bits_0.
  destruct (Z.lt_ge_cases i n) as [Hlt|Hge].
  - rewrite <- Z.shiftl_mul_pow2 by lia.
    rewrite Z.shiftl_spec_low by lia. reflexivity.
  - rewrite <- (Z.mod_small y (2 ^ n)) by lia.
    rewrite Z.mod_pow2_bits_high by lia. apply andb_false_r.
Qed.

Lemma lor_shifted (k n y : Z) :
  0 <= n -> 0 <= y < 2 ^ n -> Z.lor (k * 2 ^ n) y = k * 2 ^ n + y.
Proof.
  intros Hn Hy. pose proof (Z.add_lor_land (k * 2 ^ n) y) as H.
  rewrite land_shifted_low in H by assumption. lia.
Qed.

Lemma land_maskx (x : Z) : Z.land x maskx = x mod 64.
Proof. change maskx with (Z.ones 6). rewrite Z.land_ones by lia. reflexivity. Qed.

Lemma land_mask2 (x : Z) : Z.land x mask2 = x mod 32.
Proof. change mask2 with (Z.ones 5). rewrite Z.land_ones by lia. reflexivity. Qed.

Lemma land_mask3 (x : Z) : Z.land x mask3 = x mod 16.
Proof. change mask3 with (Z.ones 4). rewrite Z.land_ones by lia. reflexivity. Qed.

Lemma land_mask4 (x : Z) : Z.land x mask4 = x mod 8.
Proof. change mask4 with (Z.ones 3). rewrite Z.land_ones by lia. reflexivity. Qed.

(** A continuation byte written by [encoderune]. *)
Lemma lor_tx (y : Z) : Z.lor tx (Z.land y maskx) = 128 + y mod 64.
Proof.
  rewrite land_maskx. change tx with (2 * 2 ^ 6).
  apply lor_shifted; [lia|]. change (2 ^ 6) with 64.
  apply Z.mod_pos_bound. lia.
Qed.

Lemma lor_t2 (y : Z) : 0 <= y < 32 -> Z.lor t2 y = 192 + y.
Proof. intros H. change t2 with (6 * 2 ^ 5). apply lor_shifted; lia. Qed.

Lemma lor_t3 (y : Z) : 0 <= y < 16 -> Z.lor t3 y = 224 + y.
Proof. intros H. change t3 with (14 * 2 ^ 4). apply lor_shifted; lia. Qed.

Lemma lor_t4 (y : Z) : 0 <= y < 8 -> Z.lor t4 y = 240 + y.
Proof. intros H. change t4 with (30 * 2 ^ 3). apply lor_shifted; lia. Qed.

(** The rune read from two, three and four bytes. *)
Lemma rune2_arith (a b : Z) :
  Z.lor (Z.shiftl (Z.land a mask2) 6) (Z.land b maskx)
    = (a mod 32) * 64 + b mod 64.
Proof.
  rewrite land_mask2, land_maskx, Z.shiftl_mul_pow2 by lia.
  apply lor_shifted; [lia|]. apply Z.mod_pos_bound. lia.
Qed.

Lemma rune3_arith (a b c : Z) :
  Z.lor (Z.lor (Z.shiftl (Z.land a mask3) 12) (Z.shiftl (Z.land b maskx) 6))
        (Z.land c maskx)
    = (a mod 16) * 4096 + (b mod 64) * 64 + c mod 64.
Proof.
  rewrite land_mask3, !land_maskx, !Z.shiftl_mul_pow2 by lia.
  pose proof (Z.mod_pos_bound b 64 ltac:(lia)).
  pose proof (Z.mod_pos_bound c 64 ltac:(lia)).
  rewrite (lor_shifted (a mod 16) 12 (b mod 64 * 2 ^ 6)) by pow_lia.
  replace (a mod 16 * 2 ^ 12 + b mod 64 * 2 ^ 6)
    with ((a mod 16 * 64 + b mod 64) * 2 ^ 6) by pow_lia.
  rewrite lor_shifted by pow_lia. pow_lia.
Qed.

Lemma rune4_arith (a b c d : Z) :
  Z.lor (Z.lor (Z.lor (Z.shiftl (Z.land a mask4) 18)
                      (Z.shiftl (Z.land b maskx) 12))
               (Z.shiftl (Z.land c maskx) 6))
        (Z.land d maskx)
    = (a mod 8) * 262144 + (b mod 64) * 4096 + (c mod 64) * 64 + d mod 64.
Proof.
  rewrite land_mask4, !land_maskx, !Z.shiftl_mul_pow2 by lia.
  pose proof (Z.mod_pos_bound b 64 ltac:(lia)).
  pose proof (Z.mod_pos_bound c 64 ltac:(lia)).
  pose proof (Z.mod_pos_bound d 64 ltac:(lia)).
  rewrite (lor_shifted (a mod 8) 18 (b mod 64 * 2 ^ 12)) by pow_lia.
  replace (a mod 8 * 2 ^ 18 + b mod 64 * 2 ^ 12)
    with ((a mod 8 * 64 + b mod 64) * 2 ^ 12) by pow_lia.
  rewrite (lor_shifted _ 12 (c mod 64 * 2 ^ 6)) by pow_lia.
  replace ((a mod 8 * 64 + b mod 64) * 2 ^ 12 + c mod 64 * 2 ^ 6)
    with (((a mod 8 * 64 + b mod 64) * 64 + c mod 64) * 2 ^ 6) by pow_lia.
  rewrite lor_shifted by pow_lia. pow_lia.
Qed.

(** ** Encoding a decoded rune gives the bytes back *)

Ltac decide_tests :=
  repeat match goal with
  | |- context [?x <=? ?y] => destruct (Z.leb_spec x y); try lia
  | |- context [?x <? ?y] => destruct (Z.ltb_spec x y); try lia
  end; cbn [orb andb negb].

Ltac divmod_lia := Z.div_mod_to_equations; lia.

Lemma encoderune_ascii (c : byte) : b2z c < runeSelf -> encoderune (b2z c) = [c].
Proof.
  intros Hc. pose proof (b2z_range c) as Hr. unfold runeSelf in Hc.
  unfold encoderune. rewrite Z.mod_small by lia.
  unfold rune1Max. decide_tests; rewrite z2b_b2z; reflexivity.
Qed.

Lemma encoderune_rune2 (s0 s1 : byte) :
  0xC2 <= b2z s0 <= 0xDF -> 0x80 <= b2z s1 <= 0xBF ->
  let r := (b2z s0 mod 32) * 64 + b2z s1 mod 64 in
  rune1Max < r /\ encoderune r = [s0; s1].
Proof.
  intros H0 H1 r.
  assert (Hr : r = (b2z s0 - 192) * 64 + (b2z s1 - 128))
    by (subst r; divmod_lia).
  clearbody r. subst r. unfold rune1Max. split; [lia|].
  unfold encoderune. rewrite Z.mod_small by lia.
  unfold rune1Max, rune2Max. decide_tests.
  rewrite !b2z_z2b, lor_tx, Z.shiftr_div_pow2 by lia.
  change (2 ^ 6) with 64.
  rewrite lor_t2 by divmod_lia.
  f_equal; [|f_equal]; apply z2b_of; divmod_lia.
Qed.

Lemma encoderune_rune3 (s0 s1 s2 : byte) :
  0xE0 <= b2z s0 <= 0xEF -> 0x80 <= b2z s1 <= 0xBF -> 0x80 <= b2z s2 <= 0xBF ->
  (b2z s0 = 0xE0 -> 0xA0 <= b2z s1) ->
  (b2z s0 = 0xED -> b2z s1 <= 0x9F) ->
  let r := (b2z s0 mod 16) * 4096 + (b2z s1 mod 64) * 64 + b2z s2 mod 64 in
  rune2Max < r /\ ~ (surrogateMin <= r <= surrogateMax) /\
  encoderune r = [s0; s1; s2].
Proof.
  intros H0 H1 H2 Hlo Hhi r.
  assert (Hr : r = (b2z s0 - 224) * 4096 + (b2z s1 - 128) * 64 + (b2z s2 - 128))
    by (subst r; divmod_lia).
  clearbody r. subst r.
  unfold rune2Max, surrogateMin, surrogateMax.
  split; [lia|]. split; [lia|].
  unfold encoderune. rewrite Z.mod_small by lia.
  unfold rune1Max, rune2Max, rune3Max, maxRune, surrogateMin, surrogateMax.
  decide_tests; unfold encode3;
    rewrite !b2z_z2b, !lor_tx, !Z.shiftr_div_pow2 by lia;
    change (2 ^ 6) with 64; change (2 ^ 12) with 4096;
    rewrite lor_t3 by divmod_lia;
    (f_equal; [|f_equal; [|f_equal]]); apply z2b_of; divmod_lia.
Qed.

Lemma encoderune_rune4 (s0 s1 s2 s3 : byte) :
  0xF0 <= b2z s0 <= 0xF4 -> 0x80 <= b2z s1 <= 0xBF ->
  0x80 <= b2z s2 <= 0xBF -> 0x80 <= b2z s3 <= 0xBF ->
  (b2z s0 = 0xF0 -> 0x90 <= b2z s1) ->
  (b2z s0 = 0xF4 -> b2z s1 <= 0x8F) ->
  let r := (b2z s0 mod 8) * 262144 + (b2z s1 mod 64) * 4096
           + (b2z s2 mod 64) * 64 + b2z s3 mod 64 in
  rune3Max < r /\ r <= maxRune /\ encoderune r = [s0; s1; s2; s3].
Proof.
  intros H0 H1 H2 H3 Hlo Hhi r.
  assert (Hr : r = (b2z s0 - 240) * 262144 + (b2z s1 - 128) * 4096
                   + (b2z s2 - 128) * 64 + (b2z s3 - 128))
    by (subst r; divmod_lia).
  clearbody r. subst r.
  unfold rune3Max, maxRune.
  split; [lia|]. split; [lia|].
  unfold encoderune. rewrite Z.mod_small by lia.
  unfold rune1Max, rune2Max, rune3Max, maxRune, surrogateMin, surrogateMax.
  decide_tests; unfold encode4;
    rewrite !b2z_z2b, !lor_tx, !Z.shiftr_div_pow2 by lia;
    change (2 ^ 6) with 64; change (2 ^ 12) with 4096;
    change (2 ^ 18) with 262144;
    rewrite lor_t4 by divmod_lia;
    (f_equal; [|f_equal; [|f_equal; [|f_equal]]]); apply z2b_of; divmod_lia.
Qed.

(** ** [decoderune] on a well-formed sequence *)

Lemma is_cont_true (c : byte) : 0x80 <= b2z c <= 0xBF -> is_cont c = true.
Proof. intros H. unfold is_cont, locb, hicb. decide_tests; reflexivity. Qed.

Lemma is_cont_range (c : byte) : is_cont c = true -> 0x80 <= b2z c <= 0xBF.
Proof. unfold is_cont, locb, hicb. intros H. lia. Qed.

Lemma decoderune_2 (s0 s1 : byte) (tail : list byte) :
  0xC2 <= b2z s0 <= 0xDF -> 0x80 <= b2z s1 <= 0xBF ->
  exists r, decoderune (s0 :: s1 :: tail) = (r, 2%nat) /\
            encoderune r = [s0; s1].
Proof.
  intros H0 H1.
  destruct (encoderune_rune2 s0 s1 H0 H1) as [Hmin Henc].
  eexists. split; [|exact Henc].
  unfold decoderune. rewrite is_cont_true, rune2_arith by assumption.
  unfold t2, t3. unfold rune1Max in *. decide_tests; reflexivity.
Qed.

Lemma decoderune_3 (s0 s1 s2 : byte) (tail : list byte) :
  0xE0 <= b2z s0 <= 0xEF -> 0x80 <= b2z s1 <= 0xBF -> 0x80 <= b2z s2 <= 0xBF ->
  (b2z s0 = 0xE0 -> 0xA0 <= b2z s1) ->
  (b2z s0 = 0xED -> b2z s1 <= 0x9F) ->
  exists r, decoderune (s0 :: s1 :: s2 :: tail) = (r, 3%nat) /\
            encoderune r = [s0; s1; s2].
Proof.
  intros H0 H1 H2 Hlo Hhi.
  destruct (encoderune_rune3 s0 s1 s2 H0 H1 H2 Hlo Hhi) as (Hmin & Hsur & Henc).
  eexists. split; [|exact Henc].
  unfold decoderune. rewrite !is_cont_true, rune3_arith by assumption.
  unfold t2, t3, t4.
  unfold rune2Max, surrogateMin, surrogateMax in *.
  decide_tests; reflexivity.
Qed.

Lemma decoderune_4 (s0 s1 s2 s3 : byte) (tail : list byte) :
  0xF0 <= b2z s0 <= 0xF4 -> 0x80 <= b2z s1 <= 0xBF ->
  0x80 <= b2z s2 <= 0xBF -> 0x80 <= b2z s3 <= 0xBF ->
  (b2z s0 = 0xF0 -> 0x90 <= b2z s1) ->
  (b2z s0 = 0xF4 -> b2z s1 <= 0x8F) ->
  exists r, decoderune (s0 :: s1 :: s2 :: s3 :: tail) = (r, 4%nat) /\
            encoderune r = [s0; s1; s2; s3].
Proof.
  intros H0 H1 H2 H3 Hlo Hhi.
  destruct (encoderune_rune4 s0 s1 s2 s3 H0 H1 H2 H3 Hlo Hhi)
    as (Hmin & Hmax & Henc).
  eexists. split; [|exact Henc].
  unfold decoderune. rewrite !is_cont_true, rune4_arith by assumption.
  unfold t2, t3, t4, t5.
  unfold rune3Max, maxRune in *.
  decide_tests; reflexivity.
Qed.

(** ** One round of [utf8.Valid] *)

Lemma Valid_loop_sequence (fuel : nat) (p0 : byte) (rest : list byte) :
  Valid_loop (S fuel) (p0 :: rest) = true ->
  (b2z p0 <? runeSelf) = false ->
  exists tail, sequence (p0 :: rest) tail /\ Valid_loop fuel tail = true.
Proof.
  intros Hv Hna. cbn [Valid_loop] in Hv. rewrite Hna in Hv.
  destruct (first (b2z p0)) as [[size [lo hi]]|] eqn:F; [|discriminate].
  destruct ((length (p0 :: rest) <? size)%nat); [discriminate|].
  destruct rest as [|p1 tail]; [discriminate|].
  destruct ((b2z p1 <? lo) || (hi <? b2z p1)) eqn:R1; [discriminate|].
  apply orb_false_elim in R1 as [Rlo Rhi].
  apply Z.ltb_ge in Rlo, Rhi.
  unfold first, locb, hicb in F.
  repeat match type of F with
  | (if ?c then _ else _) = _ => destruct c eqn:?
  end; try discriminate; injection F as <- <- <-;
    cbn [Nat.eqb drop] in Hv.
  all: try (exists tail; split; [apply seq2; lia | exact Hv]).
  all: destruct tail as [|p2 tail]; [discriminate|].
  all: destruct (is_cont p2) eqn:C2; [|discriminate]; cbn [negb] in Hv.
  all: apply is_cont_range in C2.
  all: try (exists tail; split; [apply seq3; lia | exact Hv]).
  all: destruct tail as [|p3 tail]; [discriminate|].
  all: destruct (is_cont p3) eqn:C3; [|discriminate]; cbn [negb] in Hv.
  all: apply is_cont_range in C3.
  all: exists tail; split; [apply seq4; lia | exact Hv].
Qed.

Lemma sequence_shorter (p tail : list byte) :
  sequence p tail -> (length tail < length p)%nat.
Proof. destruct 1; simpl; lia. Qed.

(** A well-formed sequence decodes to one rune that encodes to it. *)
Lemma sequence_decoded (p tail : list byte) :
  sequence p tail ->
  exists r width, decoderune p = (r, width) /\ drop width p = tail /\
                  p = encoderune r ++ tail.
Proof.
  destruct 1.
  - destruct (decoderune_2 s0 s1 tail) as (r & Hd & He); try assumption.
    exists r, 2%nat. rewrite Hd, He. auto.
  - destruct (decoderune_3 s0 s1 s2 tail) as (r & Hd & He); try assumption.
    exists r, 3%nat. rewrite Hd, He. auto.
  - destruct (decoderune_4 s0 s1 s2 s3 tail) as (r & Hd & He); try assumption.
    exists r, 4%nat. rewrite Hd, He. auto.
Qed.

(** ** The round trip *)

Lemma range_runes_roundtrip (fuel : nat) :
  forall p : list byte,
    (length p <= fuel)%nat -> Valid_loop fuel p = true ->
    slicerunetostring (range_runes fuel p) = p.
Proof.
  induction fuel as [|fuel IH]; intros p Hlen Hv.
  - destruct p; [reflexivity | simpl in Hlen; lia].
  - destruct p as [|p0 rest]; [reflexivity|].
    cbn [range_runes].
    destruct (b2z p0 <? runeSelf) eqn:Hascii.
    + cbn [Valid_loop] in Hv. rewrite Hascii in Hv.
      unfold slicerunetostring in *. cbn [flat_map].
      rewrite encoderune_ascii by lia.
      rewrite IH; [reflexivity | simpl in Hlen; lia | exact Hv].
    + destruct (Valid_loop_sequence fuel p0 rest Hv Hascii) as (tail & Hs & Hv').
      pose proof (sequence_shorter _ _ Hs) as Hshort.
      destruct (sequence_decoded _ _ Hs) as (r & width & Hd & Hdrop & Hp).
      rewrite Hd, Hdrop.
      unfold slicerunetostring in *. cbn [flat_map].
      rewrite IH; [symmetry; exact Hp | simpl in *; lia | exact Hv'].
Qed.

Lemma stringtoslicerune_roundtrip (buffer : list byte) :
  Valid buffer = true ->
  slicerunetostring (stringtoslicerune buffer) = buffer.
Proof.
  intros Hv. apply range_runes_roundtrip; [lia | exact Hv].
Qed.

(** ** Every encoded rune slice is valid UTF-8 *)

Ltac split_tests :=
  repeat match goal with
  | |- context [if ?b then _ else _] => destruct b eqn:?
  end.

(** One round of [utf8.Valid] on a well-formed sequence. *)
Lemma Valid_loop_over_sequence (fuel : nat) (p tail : list byte) :
  sequence p tail -> Valid_loop (S fuel) p = Valid_loop fuel tail.
Proof.
  destruct 1 as [s0 s1 tail H0 H1
                |s0 s1 s2 tail H0 H1 H2 Hlo Hhi
                |s0 s1 s2 s3 tail H0 H1 H2 H3 Hlo Hhi];
    cbn [Valid_loop length];
    unfold first, is_cont, runeSelf, locb, hicb;
    split_tests; cbn [drop Nat.eqb negb] in *;
    try reflexivity; try discriminate; exfalso; lia.
Qed.

Lemma wellformed_Valid_loop (p : list byte) :
  wellformed p -> forall fuel, (length p <= fuel)%nat -> Valid_loop fuel p = true.
Proof.
  induction 1 as [|c rest Hc _ IH|p tail Hs _ IH]; intros fuel Hlen.
  - destruct fuel; reflexivity.
  - destruct fuel as [|fuel]; [simpl in Hlen; lia|].
    cbn [Valid_loop]. destruct (Z.ltb_spec (b2z c) runeSelf); [|lia].
    apply IH. simpl in Hlen. lia.
  - pose proof (sequence_shorter p tail Hs) as Hshort.
    destruct fuel as [|fuel]; [lia|].
    rewrite (Valid_loop_over_sequence fuel p tail Hs). apply IH. lia.
Qed.

Lemma wellformed_app (p q : list byte) :
  wellformed p -> wellformed q -> wellformed (p ++ q).
Proof.
  intros Hp Hq. induction Hp as [|c rest Hc _ IH|p tail Hs _ IH].
  - exact Hq.
  - simpl. apply wf_ascii; assumption.
  - apply (wf_sequence (p ++ q) (tail ++ q)); [|exact IH].
    destruct Hs; simpl; constructor; assumption.
Qed.

(** The bytes [encoderune] writes depend on the low 32 bits of the rune
    only. *)
Lemma low_byte_mod32 (r : Z) : r mod 256 = (r mod 2 ^ 32) mod 256.
Proof. change (2 ^ 32) with 4294967296. divmod_lia. Qed.

Lemma shifted_byte_mod32 (r k : Z) :
  k = 6 \/ k = 12 \/ k = 18 ->
  (r / 2 ^ k) mod 256 = ((r mod 2 ^ 32) / 2 ^ k) mod 256.
Proof.
  change (2 ^ 32) with 4294967296.
  intros [-> | [-> | ->]];
    [change (2 ^ 6) with 64 | change (2 ^ 12) with 4096
    | change (2 ^ 18) with 262144]; divmod_lia.
Qed.

Lemma byte_of_shift_mod32 (r k : Z) :
  k = 6 \/ k = 12 \/ k = 18 ->
  b2z (z2b (Z.shiftr r k)) = b2z (z2b (Z.shiftr (r mod 2 ^ 32) k)).
Proof.
  intros Hk. rewrite !b2z_z2b, !Z.shiftr_div_pow2 by lia.
  apply shifted_byte_mod32. exact Hk.
Qed.

Lemma byte_mod32 (r : Z) : b2z (z2b r) = b2z (z2b (r mod 2 ^ 32)).
Proof. rewrite !b2z_z2b. apply low_byte_mod32. Qed.

Lemma z2b_mod32 (r : Z) : z2b r = z2b (r mod 2 ^ 32).
Proof.
  rewrite <- (z2b_b2z (z2b r)), <- (z2b_b2z (z2b (r mod 2 ^ 32))).
  rewrite byte_mod32. reflexivity.
Qed.

Lemma encoderune_mod32 (r : rune) : encoderune r = encoderune (r mod 2 ^ 32).
Proof.
  unfold encoderune, encode3, encode4. rewrite Z.mod_mod by lia.
  rewrite <- !(byte_mod32 r), <- (z2b_mod32 r).
  rewrite <- !(byte_of_shift_mod32 r) by lia.
  reflexivity.
Qed.

(** The bytes of a rune, by the number of bytes. *)
Lemma b2z_z2b_small (x : Z) : 0 <= x < 256 -> b2z (z2b x) = x.
Proof. intros H. rewrite b2z_z2b. apply Z.mod_small. exact H. Qed.

Ltac bytes_arith :=
  rewrite ?b2z_z2b, ?lor_tx, ?Z.shiftr_div_pow2 by lia;
  change (2 ^ 6) with 64; change (2 ^ 12) with 4096;
  change (2 ^ 18) with 262144.

Lemma encoderune_1 (r : rune) :
  0 <= r <= rune1Max ->
  exists c, encoderune r = [c] /\ b2z c = r.
Proof.
  unfold rune1Max. intros Hr. unfold encoderune.
  rewrite Z.mod_small by lia. unfold rune1Max.
  decide_tests. eexists. split; [reflexivity|].
  apply b2z_z2b_small. lia.
Qed.

Lemma encoderune_2 (r : rune) :
  rune1Max < r <= rune2Max ->
  exists s0 s1, encoderune r = [s0; s1] /\
    b2z s0 = 192 + r / 64 /\ b2z s1 = 128 + r mod 64.
Proof.
  unfold rune1Max, rune2Max. intros Hr. unfold encoderune.
  rewrite Z.mod_small by lia. unfold rune1Max, rune2Max.
  decide_tests. do 2 eexists. split; [reflexivity|].
  bytes_arith. rewrite lor_t2 by divmod_lia.
  split; divmod_lia.
Qed.

Lemma encoderune_3 (r : rune) :
  rune2Max < r <= rune3Max -> ~ (surrogateMin <= r <= surrogateMax) ->
  exists s0 s1 s2, encoderune r = [s0; s1; s2] /\
    b2z s0 = 224 + r / 4096 /\ b2z s1 = 128 + (r / 64) mod 64 /\
    b2z s2 = 128 + r mod 64.
Proof.
  unfold rune2Max, rune3Max, surrogateMin, surrogateMax. intros Hr Hs.
  unfold encoderune. rewrite Z.mod_small by lia.
  unfold rune1Max, rune2Max, rune3Max, maxRune, surrogateMin, surrogateMax.
  decide_tests; unfold encode3; do 3 eexists; (split; [reflexivity|]);
    bytes_arith; rewrite lor_t3 by divmod_lia;
    repeat split; divmod_lia.
Qed.

Lemma encoderune_4 (r : rune) :
  rune3Max < r <= maxRune ->
  exists s0 s1 s2 s3, encoderune r = [s0; s1; s2; s3] /\
    b2z s0 = 240 + r / 262144 /\ b2z s1 = 128 + (r / 4096) mod 64 /\
    b2z s2 = 128 + (r / 64) mod 64 /\ b2z s3 = 128 + r mod 64.
Proof.
  unfold rune3Max, maxRune. intros Hr.
  unfold encoderune. rewrite Z.mod_small by lia.
  unfold rune1Max, rune2Max, rune3Max, maxRune, surrogateMin, surrogateMax.
  decide_tests; unfold encode4; do 4 eexists; (split; [reflexivity|]);
    bytes_arith; rewrite lor_t4 by divmod_lia;
    repeat split; divmod_lia.
Qed.

(** A value that is no code point, or a surrogate, is written as
    [runeError]. *)
Lemma encoderune_invalid (r : rune) :
  0 <= r < 2 ^ 32 ->
  maxRune < r \/ surrogateMin <= r <= surrogateMax ->
  encoderune r = replacement.
Proof.
  change (2 ^ 32) with 4294967296.
  unfold maxRune, surrogateMin, surrogateMax. intros Hr Hbad.
  unfold encoderune. rewrite Z.mod_small by lia.
  unfold rune1Max, rune2Max, rune3Max, maxRune, surrogateMin, surrogateMax.
  decide_tests; reflexivity.
Qed.

Lemma replacement_sequence (tail : list byte) : sequence (replacement ++ tail) tail.
Proof.
  unfold replacement. cbn [map app].
  apply seq3; rewrite ?b2z_z2b_small by lia; lia.
Qed.

Lemma encoderune_wellformed (r : rune) (tail : list byte) :
  wellformed tail -> wellformed (encoderune r ++ tail).
Proof.
  intros Htail. rewrite encoderune_mod32.
  pose proof (Z.mod_pos_bound r (2 ^ 32) ltac:(lia)) as Hi.
  set (i := r mod 2 ^ 32) in *. clearbody i.
  unfold rune1Max, rune2Max, rune3Max, maxRune, surrogateMin, surrogateMax.
  destruct (Z.le_gt_cases i rune1Max) as [H1|H1].
  { destruct (encoderune_1 i ltac:(lia)) as (c & -> & Hc).
    apply wf_ascii; [unfold runeSelf, rune1Max in *; lia | exact Htail]. }
  destruct (Z.le_gt_cases i rune2Max) as [H2|H2].
  { destruct (encoderune_2 i ltac:(lia)) as (s0 & s1 & -> & E0 & E1).
    apply (wf_sequence _ tail); [|exact Htail].
    unfold rune1Max, rune2Max in *. apply seq2; divmod_lia. }
  destruct (Z.lt_ge_cases maxRune i) as [H3|H3].
  { rewrite encoderune_invalid by tauto.
    apply (wf_sequence _ tail); [apply replacement_sequence | exact Htail]. }
  destruct (Z.le_gt_cases surrogateMin i) as [H4|H4];
    [destruct (Z.le_gt_cases i surrogateMax) as [H5|H5]|].
  { rewrite encoderune_invalid by tauto.
    apply (wf_sequence _ tail); [apply replacement_sequence | exact Htail]. }
  all: destruct (Z.le_gt_cases i rune3Max) as [H6|H6].
  all: try (destruct (encoderune_3 i ltac:(lia) ltac:(lia))
              as (s0 & s1 & s2 & -> & E0 & E1 & E2);
            apply (wf_sequence _ tail); [|exact Htail];
            unfold rune2Max, rune3Max, surrogateMin, surrogateMax in *;
            apply seq3; divmod_lia).
  all: destruct (encoderune_4 i ltac:(lia))
         as (s0 & s1 & s2 & s3 & -> & E0 & E1 & E2 & E3);
       apply (wf_sequence _ tail); [|exact Htail];
       unfold rune3Max, maxRune, surrogateMin, surrogateMax in *;
       apply seq4; divmod_lia.
Qed.

Lemma slicerunetostring_wellformed (a : list rune) : wellformed (slicerunetostring a).
Proof.
  unfold slicerunetostring. induction a as [|r a IH]; [constructor|].
  cbn [flat_map]. apply encoderune_wellformed. exact IH.
Qed.

(** Whatever the runes, [[]byte(string(a))] is valid UTF-8. *)
Theorem slicerunetostring_Valid (a : list rune) : Valid (slicerunetostring a) = true.
Proof.
  unfold Valid. apply wellformed_Valid_loop; [|lia].
  apply slicerunetostring_wellformed.
Qed.

(** The conversion to runes and back gives a buffer back unchanged
    exactly when the buffer is valid UTF-8. *)
Theorem roundtrip_iff_Valid (buffer : list byte) :
  slicerunetostring (stringtoslicerune buffer) = buffer <-> Valid buffer = true.
Proof.
  split.
  - intros <-. apply slicerunetostring_Valid.
  - apply stringtoslicerune_roundtrip.
Qed.

(** ** What [decoderune] returns *)

(** The rune is a code point that is no surrogate, and the width is at
    least one byte. *)
Lemma decoderune_result (s : list byte) :
  ValidRune (decoderune s).1 = true /\ (1 <= (decoderune s).2 <= 4)%nat.
Proof.
  unfold decoderune.
  destruct s as [|s0 [|s1 [|s2 [|s3 rest]]]];
    rewrite ?rune2_arith, ?rune3_arith, ?rune4_arith;
    unfold t2, t3, t4, t5, rune1Max, rune2Max, rune3Max, maxRune,
      surrogateMin, surrogateMax;
    split_tests; cbn [fst snd];
    unfold ValidRune, runeError, maxRune, surrogateMin, surrogateMax;
    (split; [|lia]); try reflexivity; divmod_lia.
Qed.

Lemma decoderune_width (s : list byte) : (1 <= (decoderune s).2)%nat.
Proof. apply decoderune_result. Qed.

(** The number of rounds does not matter once it covers the buffer. *)
Lemma range_runes_fuel (fuel1 : nat) :
  forall (fuel2 : nat) (s : list byte),
    (length s <= fuel1)%nat -> (length s <= fuel2)%nat ->
    range_runes fuel1 s = range_runes fuel2 s.
Proof.
  induction fuel1 as [|fuel1 IH]; intros fuel2 s H1 H2.
  - destruct s; [destruct fuel2; reflexivity | simpl in H1; lia].
  - destruct s as [|c rest]; [destruct fuel2; reflexivity|].
    destruct fuel2 as [|fuel2]; [simpl in H2; lia|].
    cbn [range_runes]. destruct (b2z c <? runeSelf).
    + f_equal. apply IH; simpl in *; lia.
    + pose proof (decoderune_width (c :: rest)) as Hw.
      destruct (decoderune (c :: rest)) as [r width]. cbn [snd] in Hw.
      f_equal. destruct width as [|width]; [lia|].
      cbn [drop]. pose proof (length_drop rest width).
      apply IH; simpl in *; lia.
Qed.

(** Every rune of [[]rune(string(b))] is a code point that is no
    surrogate, and there are no more runes than bytes. *)
Lemma range_runes_result (fuel : nat) :
  forall s : list byte,
    Forall (fun r => ValidRune r = true) (range_runes fuel s) /\
    (length (range_runes fuel s) <= length s)%nat.
Proof.
  induction fuel as [|fuel IH]; intros s; [split; [constructor | simpl; lia]|].
  destruct s as [|c rest]; [split; [constructor | simpl; lia]|].
  cbn [range_runes]. destruct (Z.ltb_spec (b2z c) runeSelf) as [Hc|Hc].
  - destruct (IH rest) as [Hall Hlen]. split.
    + constructor; [|exact Hall].
      pose proof (b2z_range c). unfold runeSelf in Hc.
      unfold ValidRune, surrogateMin. 
      destruct (Z.leb_spec 0 (b2z c)); [|lia].
      destruct (Z.ltb_spec (b2z c) 55296); [reflexivity | lia].
    + simpl. lia.
  - pose proof (decoderune_result (c :: rest)) as [Hr Hw].
    destruct (decoderune (c :: rest)) as [r width]. cbn [fst snd] in *.
    destruct (IH (drop width (c :: rest))) as [Hall Hlen]. split.
    + constructor; assumption.
    + destruct width as [|width]; [lia|]. cbn [drop] in *.
      pose proof (length_drop rest width). simpl. lia.
Qed.


(** ** Decoding an encoded rune *)

Lemma decoderune_of_2 (s0 s1 : byte) (tail : list byte) :
  0xC2 <= b2z s0 <= 0xDF -> 0x80 <= b2z s1 <= 0xBF ->
  decoderune (s0 :: s1 :: tail)
    = ((b2z s0 mod 32) * 64 + b2z s1 mod 64, 2%nat).
Proof.
  intros H0 H1.
  destruct (encoderune_rune2 s0 s1 H0 H1) as [Hmin _].
  unfold decoderune. rewrite is_cont_true, rune2_arith by assumption.
  unfold t2, t3. unfold rune1Max in *. decide_tests; reflexivity.
Qed.

Lemma decoderune_of_3 (s0 s1 s2 : byte) (tail : list byte) :
  0xE0 <= b2z s0 <= 0xEF -> 0x80 <= b2z s1 <= 0xBF -> 0x80 <= b2z s2 <= 0xBF ->
  (b2z s0 = 0xE0 -> 0xA0 <= b2z s1) ->
  (b2z s0 = 0xED -> b2z s1 <= 0x9F) ->
  decoderune (s0 :: s1 :: s2 :: tail)
    = ((b2z s0 mod 16) * 4096 + (b2z s1 mod 64) * 64 + b2z s2 mod 64, 3%nat).
Proof.
  intros H0 H1 H2 Hlo Hhi.
  destruct (encoderune_rune3 s0 s1 s2 H0 H1 H2 Hlo Hhi) as (Hmin & Hsur & _).
  unfold decoderune. rewrite !is_cont_true, rune3_arith by assumption.
  unfold t2, t3, t4.
  unfold rune2Max, surrogateMin, surrogateMax in *.
  decide_tests; reflexivity.
Qed.

Lemma decoderune_of_4 (s0 s1 s2 s3 : byte) (tail : list byte) :
  0xF0 <= b2z s0 <= 0xF4 -> 0x80 <= b2z s1 <= 0xBF ->
  0x80 <= b2z s2 <= 0xBF -> 0x80 <= b2z s3 <= 0xBF ->
  (b2z s0 = 0xF0 -> 0x90 <= b2z s1) ->
  (b2z s0 = 0xF4 -> b2z s1 <= 0x8F) ->
  decoderune (s0 :: s1 :: s2 :: s3 :: tail)
    = ((b2z s0 mod 8) * 262144 + (b2z s1 mod 64) * 4096
       + (b2z s2 mod 64) * 64 + b2z s3 mod 64, 4%nat).
Proof.
  intros H0 H1 H2 H3 Hlo Hhi.
  destruct (encoderune_rune4 s0 s1 s2 s3 H0 H1 H2 H3 Hlo Hhi)
    as (Hmin & Hmax & _).
  unfold decoderune. rewrite !is_cont_true, rune4_arith by assumption.
  unfold t2, t3, t4, t5.
  unfold rune3Max, maxRune in *.
  decide_tests; reflexivity.
Qed.

Lemma ValidRune_range (r : rune) :
  ValidRune r = true ->
  0 <= r <= 0x10FFFF /\ ~ (0xD800 <= r <= 0xDFFF).
Proof. unfold ValidRune, maxRune, surrogateMin, surrogateMax. lia. Qed.

(** One round of the loop on the bytes of a rune gives the rune back. *)
Lemma range_runes_encoderune (fuel : nat) (r : rune) (rest : list byte) :
  ValidRune r = true ->
  range_runes (S fuel) (encoderune r ++ rest) = r :: range_runes fuel rest.
Proof.
  intros Hr. apply ValidRune_range in Hr as [Hr Hs].
  destruct (Z.le_gt_cases r 0x7F) as [H1|H1].
  { destruct (encoderune_1 r) as (c & -> & Hc); [unfold rune1Max; lia|].
    cbn [app range_runes]. rewrite Hc.
    destruct (Z.ltb_spec r runeSelf); [reflexivity | unfold runeSelf in *; lia]. }
  destruct (Z.le_gt_cases r 0x7FF) as [H2|H2].
  { destruct (encoderune_2 r) as (s0 & s1 & -> & E0 & E1);
      [unfold rune1Max, rune2Max; lia|].
    cbn [app range_runes].
    destruct (Z.ltb_spec (b2z s0) runeSelf);
      [unfold runeSelf in *; divmod_lia|].
    rewrite decoderune_of_2 by divmod_lia. cbn [drop].
    f_equal. divmod_lia. }
  destruct (Z.le_gt_cases r 0xFFFF) as [H3|H3].
  { destruct (encoderune_3 r) as (s0 & s1 & s2 & -> & E0 & E1 & E2);
      [unfold rune2Max, rune3Max; lia
      |unfold surrogateMin, surrogateMax; lia|].
    cbn [app range_runes].
    destruct (Z.ltb_spec (b2z s0) runeSelf);
      [unfold runeSelf in *; divmod_lia|].
    rewrite decoderune_of_3 by divmod_lia. cbn [drop].
    f_equal. divmod_lia. }
  destruct (encoderune_4 r) as (s0 & s1 & s2 & s3 & -> & E0 & E1 & E2 & E3);
    [unfold rune3Max, maxRune; lia|].
  cbn [app range_runes].
  destruct (Z.ltb_spec (b2z s0) runeSelf);
    [unfold runeSelf in *; divmod_lia|].
  rewrite decoderune_of_4 by divmod_lia. cbn [drop].
  f_equal. divmod_lia.
Qed.

Lemma encoderune_not_empty (r : rune) : (1 <= length (encoderune r))%nat.
Proof.
  unfold encoderune, encode3, encode4.
  repeat match goal with
  | |- context [if ?b then _ else _] => destruct b
  end; simpl; lia.
Qed.

(** Runes that are code points and no surrogates come back from
    [[]rune(string([]byte(string(a))))] unchanged. *)
Theorem slicerunetostring_roundtrip (a : list rune) :
  Forall (fun r => ValidRune r = true) a ->
  stringtoslicerune (slicerunetostring a) = a.
Proof.
  unfold stringtoslicerune, slicerunetostring.
  induction 1 as [|r a Hr _ IH]; [reflexivity|].
  cbn [flat_map]. rewrite length_app.
  pose proof (encoderune_not_empty r) as Hlen.
  destruct (length (encoderune r)) as [|n]; [lia|]. cbn [Nat.add].
  rewrite range_runes_encoderune by exact Hr.
  f_equal.
  transitivity (range_runes (length (flat_map encoderune a))
                  (flat_map encoderune a)); [|exact IH].
  apply range_runes_fuel; lia.
Qed.

Lemma slicerunetostring_roundtrip_witness :
  Forall (fun r => ValidRune r = true) [0x41; 0xE9; 0x20AC; 0x1F600] /\
  stringtoslicerune (slicerunetostring [0x41; 0xE9; 0x20AC; 0x1F600])
    = [0x41; 0xE9; 0x20AC; 0x1F600].
Proof.
  assert (H : Forall (fun r => ValidRune r = true) [0x41; 0xE9; 0x20AC; 0x1F600])
    by (repeat constructor).
  split; [exact H|].
  exact (slicerunetostring_roundtrip [0x41; 0xE9; 0x20AC; 0x1F600] H).
Defined.

(** A value of type [int32] that is no code point, or that is a
    surrogate, is written as U+FFFD. *)
Theorem encoderune_replaces_invalid (r : rune) :
  is_int32 r -> ValidRune r = false -> encoderune r = replacement.
Proof.
  unfold is_int32. change (2 ^ 31) with 2147483648.
  unfold ValidRune, maxRune, surrogateMin, surrogateMax. intros Hr Hbad.
  rewrite encoderune_mod32.
  pose proof (Z.mod_pos_bound r (2 ^ 32) ltac:(lia)) as Hi.
  apply encoderune_invalid; [exact Hi|].
  unfold maxRune, surrogateMin, surrogateMax.
  change (2 ^ 32) with 4294967296 in *.
  destruct (Z.lt_ge_cases r 0) as [Hneg|Hpos].
  - left. divmod_lia.
  - rewrite Z.mod_small by lia. lia.
Qed.

Lemma encoderune_replaces_invalid_witness :
  is_int32 (-1) /\ ValidRune (-1) = false /\
  is_int32 0xD800 /\ ValidRune 0xD800 = false /\
  encoderune (-1) = replacement /\ encoderune 0xD800 = replacement.
Proof.
  assert (H1 : is_int32 (-1)) by (unfold is_int32; lia).
  assert (H2 : is_int32 0xD800) by (unfold is_int32; lia).
  split; [exact H1|]. split; [reflexivity|].
  split; [exact H2|]. split; [reflexivity|].
  split.
  - exact (encoderune_replaces_invalid (-1) H1 eq_refl).
  - exact (encoderune_replaces_invalid 0xD800 H2 eq_refl).
Defined.

End Utf8Facts.

(* ===================================================================== *)
(** * Properties of the menu registry                                      *)
(* ===================================================================== *)

Module ConsoleFacts.
Import Utf8 Console.

(** ** The history loop *)

Lemma bind_histories_eq (m : Menu) (c : Console) :
  bind_histories m c =
    {| shell := {| Config := Config (shell c);
                   History := History (shell c) ++ sources m |};
       menus := menus c |}.
Proof.
  unfold bind_histories, sources.
  revert c. induction (historyNames m) as [|key keys IH]; intros c.
  - simpl. rewrite app_nil_r. destruct c as [[cfg hist] ms]. reflexivity.
  - cbn [foldl map]. rewrite IH. unfold with_shell, History_Add. simpl.
    rewrite <- app_assoc. reflexivity.
Qed.

(** ** The scan of [activeMenu] *)

Lemma first_active_Some (order : list (string * Menu)) key menu :
  first_active order = Some (key, menu) ->
  (key, menu) ∈ order /\ active menu = true.
Proof.
  induction order as [|[k m] rest IH]; simpl; [discriminate|].
  destruct (active m) eqn:Hact.
  - intros [= <- <-]. split; [left | exact Hact].
  - intros H. destruct (IH H) as [Hin Ha]. split; [right; exact Hin | exact Ha].
Qed.

Lemma first_active_None (order : list (string * Menu)) key menu :
  first_active order = None -> (key, menu) ∈ order -> active menu = false.
Proof.
  induction order as [|[k m] rest IH]; simpl; intros Hnone Hin.
  - inversion Hin.
  - destruct (active m) eqn:Hact; [discriminate|].
    apply elem_of_cons in Hin as [[= -> ->]|Hin]; [exact Hact | auto].
Qed.

Lemma range_order_elem (c : Console) order key menu :
  range_order c order -> (key, menu) ∈ order <-> menus c !! key = Some menu.
Proof.
  unfold range_order. intros Hperm. rewrite Hperm.
  apply elem_of_map_to_list.
Qed.

(** Whatever the order of the range, a non-nil result of [activeMenu] is
    a menu marked active or, when none is, the menu under the empty
    name. *)
Lemma activeMenu_Some (c : Console) order key menu :
  range_order c order ->
  activeMenu order c = Some (key, menu) ->
  menus c !! key = Some menu /\
  (active menu = true \/ (none_active c /\ key = ""%string)).
Proof.
  intros Hord. unfold activeMenu.
  destruct (first_active order) as [[k m]|] eqn:Hscan.
  - intros [= -> ->]. apply first_active_Some in Hscan as [Hin Hact].
    split; [apply (range_order_elem c order); assumption | left; exact Hact].
  - destruct (menus c !! ""%string) as [m|] eqn:Hdef; simpl; [|discriminate].
    intros [= <- <-]. split; [exact Hdef|]. right. split; [|reflexivity].
    intros k' m' Hk'. apply (first_active_None order k' m' Hscan).
    apply (range_order_elem c order); assumption.
Qed.

Lemma activeMenu_None (c : Console) order :
  range_order c order ->
  activeMenu order c = None -> none_active c /\ menus c !! ""%string = None.
Proof.
  intros Hord. unfold activeMenu.
  destruct (first_active order) as [[k m]|] eqn:Hscan; [discriminate|].
  destruct (menus c !! ""%string) as [m|] eqn:Hdef; simpl; [discriminate|].
  intros _. split; [|reflexivity].
  intros k' m' Hk'. apply (first_active_None order k' m' Hscan).
  apply (range_order_elem c order); assumption.
Qed.

(** With one menu marked active, [activeMenu] returns it. *)
Lemma activeMenu_unique (c : Console) order key menu :
  range_order c order -> at_most_one_active c ->
  menus c !! key = Some menu -> active menu = true ->
  activeMenu order c = Some (key, menu).
Proof.
  intros Hord Hone Hkey Hact.
  destruct (activeMenu order c) as [[k m]|] eqn:Hres.
  - destruct (activeMenu_Some c order k m Hord Hres) as [Hk [Ha|[Hnone _]]].
    + assert (k = key) as -> by (eapply Hone; eassumption).
      congruence.
    + rewrite (Hnone key menu Hkey) in Hact. discriminate.
  - destruct (activeMenu_None c order Hord Hres) as [Hnone _].
    rewrite (Hnone key menu Hkey) in Hact. discriminate.
Qed.

(** ** [SwitchMenu] *)

Lemma SwitchMenu_found (c : Console) order menu target :
  menus c !! menu = Some target ->
  SwitchMenu order menu c =
    {| shell := {| Config := Config (shell c); History := sources target |};
       menus := alter (set_active true) menu
                  (menus (deactivate (activeMenu order c) c)) |}.
Proof.
  intros Hfound. unfold SwitchMenu. rewrite Hfound.
  rewrite bind_histories_eq. simpl.
  destruct (activeMenu order c) as [[k m]|]; reflexivity.
Qed.

Lemma set_active_same (b : bool) (m : Menu) : active m = b -> set_active b m = m.
Proof. destruct m; simpl; intros ->; reflexivity. Qed.

Lemma SwitchMenu_absent_registry (c : Console) order menu :
  menus c !! menu = None -> SwitchMenu order menu c = c.
Proof. intros Habsent. unfold SwitchMenu. rewrite Habsent. reflexivity. Qed.

(** C5. A name that is not in the registry: [SwitchMenu] gives the state
    back as it was (the registry with every flag, hence the active menu,
    and the line reader with its history bindings); the function has no
    result and prints nothing. *)
Theorem SwitchMenu_absent_noop (c : Console) (order : list (string * Menu))
    (menu : string) :
  menus c !! menu = None -> SwitchMenu order menu c = c.
Proof.
  intros Habsent. unfold SwitchMenu. rewrite Habsent. reflexivity.
Qed.

Lemma range_order_map_to_list (c : Console) : range_order c (map_to_list (menus c)).
Proof. unfold range_order. reflexivity. Qed.

Lemma SwitchMenu_absent_noop_witness :
  menus session !! "nonexistent"%string = None /\
  SwitchMenu (map_to_list (menus session)) "nonexistent" session = session.
Proof.
  split; [reflexivity|].
  apply (SwitchMenu_absent_noop session (map_to_list (menus session))
           "nonexistent"). reflexivity.
Defined.



(** The scenario: after [SwitchMenu("sub")] only "alt" is bound and the
    active menu is "sub". *)
Example scenario_switch_to_sub :
  let c' := SwitchMenu (map_to_list (menus session)) "sub" session in
  History (shell c') = [("alt"%string, Some 2%nat)] /\
  fst <$> activeMenu (map_to_list (menus c')) c' = Some "sub"%string.
Proof. vm_compute. split; reflexivity. Qed.

(** ** Switching to the menu that is already active *)

(** C7, counterexample.  On [New("app")] followed by [NewMenu("")] the
    active menu is the default menu, by the fallback of [activeMenu]; its
    flag is false before [SwitchMenu("")] and true after it.  On
    [rebound_later] the default menu is marked active; the line reader is
    bound to "old" before [SwitchMenu("")] and to "main" after it. *)
Lemma switch_to_active_changes_state :
  ~ switch_to_active_unchanged recreated_default
      (map_to_list (menus recreated_default)) "" /\
  ~ switch_to_active_unchanged rebound_later
      (map_to_list (menus rebound_later)) "".
Proof.
  split; intros H.
  - destruct (H (range_order_map_to_list _)) as [_ Hflags].
    + eexists. vm_compute. reflexivity.
    + specialize (Hflags ""%string). vm_compute in Hflags. discriminate.
  - destruct (H (range_order_map_to_list _)) as [Hbound _].
    + eexists. vm_compute. reflexivity.
    + vm_compute in Hbound. discriminate.
Qed.

(** C7, amended.  When the menu registered under [menu] is marked active,
    no other menu is, and the line reader is bound to exactly the sources
    of that menu in their stored order, [SwitchMenu menu] gives the state
    back as it was: same bindings, none of them twice, and same flags. *)
Theorem SwitchMenu_active_menu_unchanged (c : Console)
    (order : list (string * Menu)) (menu : string) (target : Menu) :
  range_order c order -> at_most_one_active c ->
  menus c !! menu = Some target -> active target = true ->
  History (shell c) = sources target ->
  SwitchMenu order menu c = c.
Proof.
  intros Hord Hone Hfound Hact Hbound.
  rewrite (SwitchMenu_found c order menu target Hfound).
  rewrite (activeMenu_unique c order menu target Hord Hone Hfound Hact).
  simpl. rewrite alter_alter_eq.
  rewrite alter_id.
  - destruct c as [[cfg hist] ms]. simpl in *. subst hist. reflexivity.
  - intros m Hm. simpl. rewrite Hfound in Hm. injection Hm as <-.
    destruct target; simpl in *; subst; reflexivity.
Qed.

Lemma session_one_active : at_most_one_active session.
Proof.
  intros k1 m1 k2 m2 H1 A1 H2 A2. unfold session in *. simpl in *.
  apply lookup_insert_Some in H1 as [[<- <-]|[_ H1]]; [discriminate|].
  apply lookup_insert_Some in H2 as [[<- <-]|[_ H2]]; [discriminate|].
  apply lookup_singleton_Some in H1 as [<- _].
  apply lookup_singleton_Some in H2 as [<- _]. reflexivity.
Qed.

Lemma SwitchMenu_active_menu_unchanged_witness :
  range_order session (map_to_list (menus session)) /\
  at_most_one_active session /\
  menus session !! ""%string = Some default_menu /\
  active default_menu = true /\
  History (shell session) = sources default_menu /\
  SwitchMenu (map_to_list (menus session)) "" session = session.
Proof.
  split; [apply range_order_map_to_list|].
  split; [apply session_one_active|].
  split; [reflexivity|]. split; [reflexivity|]. split; [reflexivity|].
  exact (SwitchMenu_active_menu_unchanged session
    (map_to_list (menus session)) "" default_menu
    (range_order_map_to_list session) session_one_active
    eq_refl eq_refl eq_refl).
Defined.

(** ** Reachable states *)

Section Reachable.

Variable NewShell : string -> Shell.
Variable newMenu : string -> Console -> Menu.

(** Modelled from the spec: [newMenu] is in a file of the package that
    is not under src/; a new menu is not automatically marked active. *)
Hypothesis newMenu_inactive : forall key c, active (newMenu key c) = false.

Lemma menus_New (app : string) :
  exists menu, menus (New NewShell newMenu app) = {[""%string := menu]}.
Proof.
  unfold New, NewMenu. cbn [snd fst].
  unfold write_active. cbn [menus shell].
  rewrite lookup_alter_eq, lookup_insert_eq. cbn [fmap option_fmap option_map].
  rewrite bind_histories_eq. cbn [menus].
  rewrite alter_insert_eq. cbn [setupShell with_shell menus].
  rewrite insert_empty. eexists. reflexivity.
Qed.

Lemma registry_inv_New (app : string) : registry_inv (New NewShell newMenu app).
Proof.
  destruct (menus_New app) as [menu Hm]. split.
  - intros k1 m1 k2 m2 H1 _ H2 _. rewrite Hm in H1, H2.
    apply lookup_singleton_Some in H1 as [<- _].
    apply lookup_singleton_Some in H2 as [<- _]. reflexivity.
  - rewrite Hm, lookup_singleton_eq. eauto.
Qed.

Lemma registry_inv_NewMenu (key : string) (c : Console) :
  registry_inv c -> registry_inv (NewMenu newMenu key c).2.
Proof.
  intros [Hone Hdef]. unfold NewMenu. cbn [snd]. split.
  - intros k1 m1 k2 m2 H1 A1 H2 A2. cbn [menus] in H1, H2.
    apply lookup_insert_Some in H1 as [[<- <-]|[_ H1]];
      [rewrite newMenu_inactive in A1; discriminate|].
    apply lookup_insert_Some in H2 as [[<- <-]|[_ H2]];
      [rewrite newMenu_inactive in A2; discriminate|].
    eapply Hone; eassumption.
  - cbn [menus]. apply lookup_insert_is_Some'. right. exact Hdef.
Qed.

Lemma SwitchMenu_only_target_active (c : Console) order menu target :
  range_order c order -> at_most_one_active c ->
  menus c !! menu = Some target ->
  forall key m,
    menus (SwitchMenu order menu c) !! key = Some m -> active m = true ->
    key = menu.
Proof.
  intros Hord Hone Hfound key m Hkey Hact.
  rewrite (SwitchMenu_found c order menu target Hfound) in Hkey.
  cbn [menus] in Hkey.
  destruct (decide (key = menu)) as [|Hne]; [assumption|exfalso].
  rewrite lookup_alter_ne in Hkey by congruence.
  destruct (activeMenu order c) as [[k cur]|] eqn:Hcur; cbn in Hkey.
  - destruct (decide (k = key)) as [->|Hk].
    + rewrite lookup_alter_eq in Hkey.
      destruct (menus c !! key) as [m0|]; [|discriminate].
      injection Hkey as <-. discriminate.
    + rewrite lookup_alter_ne in Hkey by exact Hk.
      rewrite (activeMenu_unique c order key m Hord Hone Hkey Hact) in Hcur.
      congruence.
  - destruct (activeMenu_None c order Hord Hcur) as [Hnone _].
    rewrite (Hnone key m Hkey) in Hact. discriminate.
Qed.

Lemma registry_inv_SwitchMenu (c : Console) order menu :
  range_order c order -> registry_inv c ->
  registry_inv (SwitchMenu order menu c).
Proof.
  intros Hord [Hone Hdef].
  destruct (menus c !! menu) as [target|] eqn:Hfound.
  - split.
    + intros k1 m1 k2 m2 H1 A1 H2 A2.
      rewrite (SwitchMenu_only_target_active c order menu target
                 Hord Hone Hfound k1 m1 H1 A1).
      rewrite (SwitchMenu_only_target_active c order menu target
                 Hord Hone Hfound k2 m2 H2 A2).
      reflexivity.
    + rewrite (SwitchMenu_found c order menu target Hfound). cbn [menus].
      apply lookup_alter_is_Some.
      destruct (activeMenu order c) as [[k cur]|]; cbn;
        [apply lookup_alter_is_Some|]; exact Hdef.
  - rewrite (SwitchMenu_absent_registry c order menu Hfound).
    split; assumption.
Qed.

Lemma reachable_registry_inv (c : Console) :
  reachable NewShell newMenu c -> registry_inv c.
Proof.
  induction 1 as [app|key c _ IH|order menu c _ IH Hord].
  - apply registry_inv_New.
  - apply registry_inv_NewMenu. exact IH.
  - apply registry_inv_SwitchMenu; assumption.
Qed.

Lemma registry_inv_activeMenu (c : Console) order :
  registry_inv c -> range_order c order ->
  activeMenu_spec c (activeMenu order c).
Proof.
  intros [_ [def Hdef]] Hord.
  destruct (activeMenu order c) as [[k m]|] eqn:Hres.
  - exists k, m. split; [reflexivity|].
    exact (activeMenu_Some c order k m Hord Hres).
  - destruct (activeMenu_None c order Hord Hres) as [_ Hnil]. congruence.
Qed.

End Reachable.

(** C8. In every state reached from [New] by calls of [NewMenu] and
    [SwitchMenu], with new menus created inactive, at most one menu of
    the registry is marked active, and [activeMenu], whatever the order in
    which Go ranges over the registry, returns a menu of the registry: the
    one marked active, or, when none is, the one registered under the
    empty name (which is always there). *)
Theorem reachable_one_active_menu
    (NewShell : string -> Shell) (newMenu : string -> Console -> Menu)
    (c : Console) :
  (forall key c0, active (newMenu key c0) = false) ->
  reachable NewShell newMenu c ->
  at_most_one_active c /\
  forall order, range_order c order -> activeMenu_spec c (activeMenu order c).
Proof.
  intros Hnew Hreach.
  pose proof (reachable_registry_inv NewShell newMenu Hnew c Hreach) as Hinv.
  split; [exact (proj1 Hinv)|].
  intros order Hord. apply registry_inv_activeMenu; assumption.
Qed.

Lemma reachable_one_active_menu_witness :
  (forall key c0, active (plain_menu key c0) = false) /\
  reachable plain_shell plain_menu switched_to_sub /\
  at_most_one_active switched_to_sub /\
  activeMenu_spec switched_to_sub
    (activeMenu (map_to_list (menus switched_to_sub)) switched_to_sub).
Proof.
  assert (Hnew : forall key c0, active (plain_menu key c0) = false)
    by (intros; reflexivity).
  assert (Hreach : reachable plain_shell plain_menu switched_to_sub).
  { unfold switched_to_sub. apply reach_SwitchMenu.
    - apply reach_NewMenu. apply reach_New.
    - apply range_order_map_to_list. }
  split; [exact Hnew|]. split; [exact Hreach|].
  destruct (reachable_one_active_menu plain_shell plain_menu switched_to_sub
              Hnew Hreach) as [Hone Hact].
  split; [exact Hone|].
  apply Hact. apply range_order_map_to_list.
Defined.

Example switched_to_sub_active :
  fst <$> activeMenu (map_to_list (menus switched_to_sub)) switched_to_sub
    = Some "sub"%string.
Proof. vm_compute. reflexivity. Qed.

(** ** [SystemEditor] *)

(** C10. On a buffer that is valid UTF-8, when the editor returns the
    runes it was given, [SystemEditor] returns the bytes of the buffer. *)
Theorem SystemEditor_unchanged_buffer
    (EditBuffer : list rune -> string -> string -> bool -> list rune * option string)
    (c : Console) (buffer : list byte) (filetype : string) :
  Valid buffer = true ->
  (EditBuffer (stringtoslicerune buffer) "" filetype
     (String.eqb (Config_GetString "editing-mode" (shell c)) "emacs")).1
    = stringtoslicerune buffer ->
  (SystemEditor EditBuffer c buffer filetype).1 = buffer.
Proof.
  intros Hvalid Hsame. unfold SystemEditor.
  destruct (EditBuffer _ _ _ _) as [edited err]. simpl in *. subst edited.
  apply Utf8Facts.stringtoslicerune_roundtrip. exact Hvalid.
Qed.

Lemma SystemEditor_unchanged_buffer_witness :
  Valid sample_buffer = true /\
  (idle_editor (stringtoslicerune sample_buffer) "" "txt"
     (String.eqb (Config_GetString "editing-mode" (shell session)) "emacs")).1
    = stringtoslicerune sample_buffer /\
  (SystemEditor idle_editor session sample_buffer "txt").1 = sample_buffer.
Proof.
  split; [vm_compute; reflexivity|]. split; [reflexivity|].
  apply (SystemEditor_unchanged_buffer idle_editor session sample_buffer "txt").
  - vm_compute; reflexivity.
  - reflexivity.
Defined.

(** Bytes that are not valid UTF-8 do not come back: each becomes the
    replacement character. *)
Example SystemEditor_invalid_buffer :
  (SystemEditor idle_editor session [z2b 0xFF] "txt").1
    = map z2b [0xEF; 0xBF; 0xBD].
Proof. vm_compute. reflexivity. Qed.

(** ** [New] *)



Lemma New_shell_eq
    (NewShell : string -> Shell) (newMenu : string -> Console -> Menu)
    (app : string) :
  shell (New NewShell newMenu app) =
    {| Config := <["menu-complete-display-prefix"%string := CfgBool true]>
                   (<["skip-completed-text"%string := CfgBool true]>
                      (Config (NewShell app)));
       History := History (NewShell app)
                  ++ sources (newMenu "" (fresh_console NewShell app)) |}.
Proof.
  unfold New, NewMenu, fresh_console. cbn [snd fst].
  unfold write_active. cbn [menus shell].
  rewrite lookup_alter_eq, lookup_insert_eq. cbn [fmap option_fmap option_map].
  rewrite bind_histories_eq. reflexivity.
Qed.


(** ** [NewMenu] and [Menu] *)

(** [NewMenu] registers the new menu under its name, in place of a menu
    already there; [Menu] then returns it, returns what it returned before
    for every other name, and the line reader is not touched. *)
Theorem NewMenu_registers (newMenu : string -> Console -> Menu)
    (key : string) (c : Console) :
  let c' := (NewMenu newMenu key c).2 in
  (NewMenu newMenu key c).1 = key /\
  GetMenu key c' = Some (newMenu key c) /\
  (forall other, other <> key -> GetMenu other c' = GetMenu other c) /\
  shell c' = shell c.
Proof.
  cbn zeta. unfold NewMenu, GetMenu. cbn [fst snd menus shell].
  split; [reflexivity|]. split; [apply lookup_insert_eq|].
  split; [|reflexivity].
  intros other Hne. apply lookup_insert_ne. congruence.
Qed.

(** ** [activeMenu] without a marked menu *)

Lemma first_active_none_active (c : Console) order :
  range_order c order -> none_active c -> first_active order = None.
Proof.
  intros Hord Hnone.
  assert (Hall : forall key menu, (key, menu) ∈ order -> active menu = false).
  { intros key menu Hin. apply (Hnone key menu).
    apply (range_order_elem c order); assumption. }
  clear Hord. induction order as [|[k m] rest IH]; [reflexivity|].
  simpl. rewrite (Hall k m) by left. apply IH.
  intros key menu Hin. apply (Hall key menu). right. exact Hin.
Qed.

Lemma activeMenu_none_active (c : Console) order :
  range_order c order -> none_active c ->
  activeMenu order c = (fun menu => (""%string, menu)) <$> menus c !! ""%string.
Proof.
  intros Hord Hnone. unfold activeMenu.
  rewrite (first_active_none_active c order Hord Hnone). reflexivity.
Qed.

(** [activeMenu] returns nil exactly when no menu is marked active and no
    menu is registered under the empty name. *)
Theorem activeMenu_nil_iff (c : Console) (order : list (string * Menu)) :
  range_order c order ->
  (activeMenu order c = None <->
   none_active c /\ menus c !! ""%string = None).
Proof.
  intros Hord. split.
  - apply activeMenu_None. exact Hord.
  - intros [Hnone Hdef].
    rewrite (activeMenu_none_active c order Hord Hnone), Hdef. reflexivity.
Qed.

Lemma activeMenu_nil_iff_witness :
  range_order {| shell := plain_shell "app"; menus := ∅ |} [] /\
  activeMenu [] {| shell := plain_shell "app"; menus := ∅ |} = None.
Proof.
  assert (Hord : range_order {| shell := plain_shell "app"; menus := ∅ |} []).
  { unfold range_order. cbn [menus]. rewrite map_to_list_empty. reflexivity. }
  split; [exact Hord|].
  apply (proj2 (activeMenu_nil_iff _ [] Hord)). split.
  - intros key menu H. cbn [menus] in H. rewrite lookup_empty in H. discriminate.
  - reflexivity.
Defined.

(** Whatever the order in which Go ranges over the registry, [activeMenu]
    and [SwitchMenu] give the same result, as long as at most one menu is
    marked active. *)
Lemma activeMenu_any_order (c : Console) order1 order2 :
  at_most_one_active c -> range_order c order1 -> range_order c order2 ->
  activeMenu order1 c = activeMenu order2 c.
Proof.
  intros Hone H1 H2.
  destruct (activeMenu order1 c) as [[k m]|] eqn:Hres.
  - destruct (activeMenu_Some c order1 k m H1 Hres) as [Hk [Hact|[Hnone ->]]].
    + symmetry. apply activeMenu_unique; assumption.
    + rewrite (activeMenu_none_active c order2 H2 Hnone), Hk. reflexivity.
  - destruct (activeMenu_None c order1 H1 Hres) as [Hnone Hdef].
    rewrite (activeMenu_none_active c order2 H2 Hnone), Hdef. reflexivity.
Qed.

Theorem SwitchMenu_any_order (c : Console)
    (order1 order2 : list (string * Menu)) (menu : string) :
  at_most_one_active c -> range_order c order1 -> range_order c order2 ->
  CurrentMenu order1 c = CurrentMenu order2 c /\
  SwitchMenu order1 menu c = SwitchMenu order2 menu c.
Proof.
  intros Hone H1 H2.
  pose proof (activeMenu_any_order c order1 order2 Hone H1 H2) as Heq.
  split; [exact Heq|].
  unfold SwitchMenu. rewrite Heq. reflexivity.
Qed.

Lemma SwitchMenu_any_order_witness :
  at_most_one_active session /\
  range_order session (map_to_list (menus session)) /\
  range_order session (reverse (map_to_list (menus session))) /\
  SwitchMenu (map_to_list (menus session)) "sub" session
    = SwitchMenu (reverse (map_to_list (menus session))) "sub" session.
Proof.
  assert (Hrev : range_order session (reverse (map_to_list (menus session)))).
  { unfold range_order. apply reverse_Permutation. }
  split; [apply session_one_active|].
  split; [apply range_order_map_to_list|]. split; [exact Hrev|].
  exact (proj2 (SwitchMenu_any_order session (map_to_list (menus session))
    (reverse (map_to_list (menus session))) "sub"
    session_one_active (range_order_map_to_list session) Hrev)).
Defined.

(** ** What [SwitchMenu] keeps *)

Lemma settings_set_active (b : bool) (m : Menu) : settings (set_active b m) = settings m.
Proof. reflexivity. Qed.

Lemma sources_settings (m1 m2 : Menu) : settings m1 = settings m2 -> sources m1 = sources m2.
Proof. unfold settings, sources. intros [= _ -> ->]. reflexivity. Qed.

Lemma settings_deactivate (current : option (string * Menu)) (c : Console) key :
  settings <$> menus (deactivate current c) !! key = settings <$> menus c !! key.
Proof.
  destruct current as [[k m]|]; [|reflexivity]. cbn [deactivate write_active menus].
  rewrite lookup_alter. case_decide; [|reflexivity].
  subst. destruct (menus c !! key); reflexivity.
Qed.

Lemma SwitchMenu_settings (c : Console) order menu key :
  settings <$> menus (SwitchMenu order menu c) !! key
    = settings <$> menus c !! key.
Proof.
  destruct (menus c !! menu) as [target|] eqn:Hfound.
  - rewrite (SwitchMenu_found c order menu target Hfound). cbn [menus].
    rewrite lookup_alter. case_decide.
    + subst key. rewrite <- settings_deactivate with (current := activeMenu order c).
      destruct (menus (deactivate (activeMenu order c) c) !! menu); reflexivity.
    + apply settings_deactivate.
  - rewrite (SwitchMenu_absent_registry c order menu Hfound). reflexivity.
Qed.

(** [SwitchMenu] writes flags and history bindings only: the options of
    the line reader, the names in the registry and, for every menu, its
    name, its [historyNames] and its [histories] are as before. *)
Theorem SwitchMenu_keeps_settings (c : Console) (order : list (string * Menu))
    (menu : string) :
  let c' := SwitchMenu order menu c in
  Config (shell c') = Config (shell c) /\
  dom (menus c') = dom (menus c) /\
  forall key, settings <$> menus c' !! key = settings <$> menus c !! key.
Proof.
  cbn zeta. split; [|split; [|apply SwitchMenu_settings]].
  - destruct (menus c !! menu) as [target|] eqn:Hfound.
    + rewrite (SwitchMenu_found c order menu target Hfound). reflexivity.
    + rewrite (SwitchMenu_absent_registry c order menu Hfound). reflexivity.
  - apply set_eq. intros key. rewrite !elem_of_dom.
    rewrite <- !(fmap_is_Some settings). rewrite SwitchMenu_settings.
    reflexivity.
Qed.

(** ** One switch after another *)

Lemma none_active_deactivate (c : Console) order :
  range_order c order -> at_most_one_active c ->
  none_active (deactivate (activeMenu order c) c).
Proof.
  intros Hord Hone key m Hkey.
  destruct (activeMenu order c) as [[k cur]|] eqn:Hcur;
    cbn [deactivate write_active menus] in Hkey.
  - rewrite lookup_alter in Hkey. case_decide as Hk.
    + subst key. destruct (menus c !! k); [|discriminate].
      injection Hkey as <-. reflexivity.
    + destruct (active m) eqn:Hact; [|reflexivity].
      rewrite (activeMenu_unique c order key m Hord Hone Hkey Hact) in Hcur.
      congruence.
  - destruct (activeMenu_None c order Hord Hcur) as [Hnone _].
    exact (Hnone key m Hkey).
Qed.

Lemma SwitchMenu_target_lookup (c : Console) order menu target :
  menus c !! menu = Some target ->
  menus (SwitchMenu order menu c) !! menu = Some (set_active true target).
Proof.
  intros Hfound. rewrite (SwitchMenu_found c order menu target Hfound).
  cbn [menus]. rewrite lookup_alter_eq.
  destruct (activeMenu order c) as [[k m]|]; cbn [deactivate write_active menus].
  - rewrite lookup_alter. case_decide as Hk.
    + subst k. rewrite Hfound. destruct target; reflexivity.
    + rewrite Hfound. reflexivity.
  - rewrite Hfound. reflexivity.
Qed.

Lemma SwitchMenu_one_active (c : Console) order menu :
  range_order c order -> at_most_one_active c ->
  at_most_one_active (SwitchMenu order menu c).
Proof.
  intros Hord Hone.
  destruct (menus c !! menu) as [target|] eqn:Hfound.
  - intros k1 m1 k2 m2 H1 A1 H2 A2.
    rewrite (SwitchMenu_only_target_active c order menu target
               Hord Hone Hfound k1 m1 H1 A1).
    rewrite (SwitchMenu_only_target_active c order menu target
               Hord Hone Hfound k2 m2 H2 A2).
    reflexivity.
  - rewrite (SwitchMenu_absent_registry c order menu Hfound). exact Hone.
Qed.

(** After a switch to a registered menu, [CurrentMenu] returns that menu,
    now marked active. *)
Theorem SwitchMenu_then_CurrentMenu (c : Console)
    (order order' : list (string * Menu)) (menu : string) (target : Menu) :
  range_order c order -> at_most_one_active c ->
  menus c !! menu = Some target ->
  range_order (SwitchMenu order menu c) order' ->
  CurrentMenu order' (SwitchMenu order menu c)
    = Some (menu, set_active true target).
Proof.
  intros Hord Hone Hfound Hord'. unfold CurrentMenu.
  apply activeMenu_unique.
  - exact Hord'.
  - apply SwitchMenu_one_active; assumption.
  - apply SwitchMenu_target_lookup. exact Hfound.
  - reflexivity.
Qed.

Lemma SwitchMenu_then_CurrentMenu_witness :
  range_order session (map_to_list (menus session)) /\
  at_most_one_active session /\
  menus session !! "sub"%string = Some sub_menu /\
  CurrentMenu
    (map_to_list (menus (SwitchMenu (map_to_list (menus session)) "sub" session)))
    (SwitchMenu (map_to_list (menus session)) "sub" session)
    = Some ("sub"%string, set_active true sub_menu).
Proof.
  split; [apply range_order_map_to_list|].
  split; [apply session_one_active|]. split; [reflexivity|].
  exact (SwitchMenu_then_CurrentMenu session (map_to_list (menus session)) _
    "sub" sub_menu (range_order_map_to_list session) session_one_active
    eq_refl (range_order_map_to_list _)).
Defined.

Lemma set_active_twice (b1 b2 : bool) (m : Menu) :
  set_active b1 (set_active b2 m) = set_active b1 m.
Proof. reflexivity. Qed.

Lemma SwitchMenu_twice (c : Console) order order' first second m1 m2 :
  range_order c order -> at_most_one_active c ->
  menus c !! first = Some m1 -> menus c !! second = Some m2 ->
  range_order (SwitchMenu order first c) order' ->
  SwitchMenu order' second (SwitchMenu order first c)
    = SwitchMenu order second c.
Proof.
  intros Hord Hone H1 H2 Hord'.
  pose proof (none_active_deactivate c order Hord Hone) as Hnone.
  assert (Hcur : activeMenu order' (SwitchMenu order first c)
                 = Some (first, set_active true m1)).
  { apply activeMenu_unique.
    - exact Hord'.
    - apply SwitchMenu_one_active; assumption.
    - apply SwitchMenu_target_lookup. exact H1.
    - reflexivity. }
  pose proof (SwitchMenu_settings c order first second) as Hs.
  destruct (menus (SwitchMenu order first c) !! second) as [m2'|] eqn:H2';
    rewrite H2 in Hs; [|discriminate].
  assert (Hsrc : sources m2' = sources m2).
  { apply sources_settings.
    change (Some (settings m2') = Some (settings m2)) in Hs. congruence. }
  rewrite (SwitchMenu_found _ order' second m2' H2'), Hcur.
  rewrite (SwitchMenu_found c order second m2 H2).
  rewrite (SwitchMenu_found c order first m1 H1).
  cbn [deactivate write_active menus shell Config]. rewrite Hsrc.
  f_equal. f_equal.
  rewrite alter_alter_eq.
  rewrite (alter_id (set_active false ∘ set_active true)); [reflexivity|].
  intros m Hm. cbn. rewrite set_active_twice.
  apply set_active_same. exact (Hnone first m Hm).
Qed.

(** Of two switches to registered menus only the second one counts: the
    console is the one a single switch to the second menu gives.  Two
    switches to the same menu are one. *)
Theorem SwitchMenu_last_wins (c : Console)
    (order order' : list (string * Menu)) (first second : string)
    (m1 m2 : Menu) :
  range_order c order -> at_most_one_active c ->
  menus c !! first = Some m1 -> menus c !! second = Some m2 ->
  range_order (SwitchMenu order first c) order' ->
  SwitchMenu order' second (SwitchMenu order first c)
    = SwitchMenu order second c /\
  SwitchMenu order' first (SwitchMenu order first c) = SwitchMenu order first c.
Proof.
  intros Hord Hone H1 H2 Hord'. split.
  - apply (SwitchMenu_twice c order order' first second m1 m2); assumption.
  - apply (SwitchMenu_twice c order order' first first m1 m1); assumption.
Qed.

Lemma SwitchMenu_last_wins_witness :
  range_order session (map_to_list (menus session)) /\
  at_most_one_active session /\
  menus session !! "sub"%string = Some sub_menu /\
  menus session !! ""%string = Some default_menu /\
  SwitchMenu
    (map_to_list (menus (SwitchMenu (map_to_list (menus session)) "sub" session)))
    "" (SwitchMenu (map_to_list (menus session)) "sub" session)
    = SwitchMenu (map_to_list (menus session)) "" session.
Proof.
  split; [apply range_order_map_to_list|].
  split; [apply session_one_active|].
  split; [reflexivity|]. split; [reflexivity|].
  exact (proj1 (SwitchMenu_last_wins session (map_to_list (menus session)) _
    "sub" "" sub_menu default_menu
    (range_order_map_to_list session) session_one_active eq_refl eq_refl
    (range_order_map_to_list _))).
Defined.

Lemma SwitchMenu_bound_noop (c : Console) order menu target :
  range_order c order -> at_most_one_active c ->
  menus c !! menu = Some target -> active target = true ->
  History (shell c) = sources target ->
  SwitchMenu order menu c = c.
Proof.
  intros Hord Hone Hfound Hact Hbound.
  rewrite (SwitchMenu_found c order menu target Hfound).
  rewrite (activeMenu_unique c order menu target Hord Hone Hfound Hact).
  cbn [deactivate write_active menus]. rewrite alter_alter_eq, alter_id.
  - destruct c as [[cfg hist] ms]. cbn in *. subst hist. reflexivity.
  - intros m Hm. rewrite Hfound in Hm. injection Hm as <-.
    cbn. rewrite set_active_twice. apply set_active_same. exact Hact.
Qed.

(** Switching to another registered menu and back gives the console back
    as it was, when the menu switched back to was the one marked active
    and the line reader was bound to its sources. *)
Theorem SwitchMenu_there_and_back (c : Console)
    (order order' : list (string * Menu)) (home away : string)
    (mh ma : Menu) :
  range_order c order -> at_most_one_active c ->
  menus c !! home = Some mh -> active mh = true ->
  History (shell c) = sources mh ->
  menus c !! away = Some ma ->
  range_order (SwitchMenu order away c) order' ->
  SwitchMenu order' home (SwitchMenu order away c) = c.
Proof.
  intros Hord Hone Hh Hact Hbound Ha Hord'.
  rewrite (SwitchMenu_twice c order order' away home ma mh) by assumption.
  apply (SwitchMenu_bound_noop c order home mh); assumption.
Qed.

Lemma SwitchMenu_there_and_back_witness :
  range_order session (map_to_list (menus session)) /\
  at_most_one_active session /\
  menus session !! ""%string = Some default_menu /\
  active default_menu = true /\
  History (shell session) = sources default_menu /\
  menus session !! "sub"%string = Some sub_menu /\
  SwitchMenu
    (map_to_list (menus (SwitchMenu (map_to_list (menus session)) "sub" session)))
    "" (SwitchMenu (map_to_list (menus session)) "sub" session)
    = session.
Proof.
  split; [apply range_order_map_to_list|].
  split; [apply session_one_active|].
  split; [reflexivity|]. split; [reflexivity|]. split; [reflexivity|].
  split; [reflexivity|].
  exact (SwitchMenu_there_and_back session (map_to_list (menus session)) _
    "" "sub" default_menu sub_menu
    (range_order_map_to_list session) session_one_active
    eq_refl eq_refl eq_refl eq_refl (range_order_map_to_list _)).
Defined.

(** ** Creating the active menu again *)

(** When [NewMenu] replaces the menu that is marked active by a menu that
    is not, no menu is marked active any more: [CurrentMenu] falls back to
    the menu under the empty name, while the line reader stays bound to
    the sources of the menu that was replaced. *)
Theorem NewMenu_replaces_active (newMenu : string -> Console -> Menu)
    (key : string) (c : Console) (old : Menu) (order' : list (string * Menu)) :
  active (newMenu key c) = false ->
  at_most_one_active c ->
  menus c !! key = Some old -> active old = true ->
  range_order (NewMenu newMenu key c).2 order' ->
  let c' := (NewMenu newMenu key c).2 in
  none_active c' /\
  CurrentMenu order' c' = (fun menu => (""%string, menu)) <$> menus c' !! ""%string /\
  History (shell c') = History (shell c).
Proof.
  intros Hnew Hone Hold Hact Hord'. cbn zeta.
  assert (Hnone : none_active (NewMenu newMenu key c).2).
  { intros k m Hk. unfold NewMenu in Hk. cbn [snd menus] in Hk.
    apply lookup_insert_Some in Hk as [[<- <-]|[Hne Hk]]; [exact Hnew|].
    destruct (active m) eqn:Hm; [|reflexivity].
    exfalso. apply Hne. eapply Hone; eassumption. }
  split; [exact Hnone|]. split; [|reflexivity].
  unfold CurrentMenu. apply activeMenu_none_active; assumption.
Qed.

Lemma NewMenu_replaces_active_witness :
  active (plain_menu "" session) = false /\
  at_most_one_active session /\
  menus session !! ""%string = Some default_menu /\
  active default_menu = true /\
  CurrentMenu (map_to_list (menus (NewMenu plain_menu "" session).2))
              (NewMenu plain_menu "" session).2
    = Some (""%string, plain_menu "" session) /\
  History (shell (NewMenu plain_menu "" session).2)
    = [("main"%string, Some 1%nat)].
Proof.
  split; [reflexivity|]. split; [apply session_one_active|].
  split; [reflexivity|]. split; [reflexivity|].
  destruct (NewMenu_replaces_active plain_menu "" session default_menu
    (map_to_list (menus (NewMenu plain_menu "" session).2))
    eq_refl session_one_active eq_refl eq_refl (range_order_map_to_list _))
    as (_ & Hcur & Hhist).
  split; [rewrite Hcur; reflexivity | rewrite Hhist; reflexivity].
Defined.

(** ** More of [SystemEditor] *)

Lemma SystemEditor_eq
    (EditBuffer : list rune -> string -> string -> bool -> list rune * option string)
    (c : Console) (buffer : list byte) (filetype : string) :
  SystemEditor EditBuffer c buffer filetype =
    (slicerunetostring (editor_result EditBuffer c buffer filetype).1,
     (editor_result EditBuffer c buffer filetype).2).
Proof.
  unfold SystemEditor, editor_result.
  destruct (EditBuffer _ _ _ _) as [edited err]. reflexivity.
Qed.

(** Whatever the buffer and whatever the editor returns, the bytes
    [SystemEditor] returns are valid UTF-8. *)
Theorem SystemEditor_returns_valid_utf8
    (EditBuffer : list rune -> string -> string -> bool -> list rune * option string)
    (c : Console) (buffer : list byte) (filetype : string) :
  Valid (SystemEditor EditBuffer c buffer filetype).1 = true.
Proof.
  rewrite SystemEditor_eq. cbn [fst].
  apply Utf8Facts.slicerunetostring_Valid.
Qed.

(** When the editor returns the runes it was given, the buffer comes back
    unchanged exactly when it is valid UTF-8: every byte outside a
    well-formed sequence is replaced. *)
Theorem SystemEditor_unchanged_iff_valid
    (EditBuffer : list rune -> string -> string -> bool -> list rune * option string)
    (c : Console) (buffer : list byte) (filetype : string) :
  (editor_result EditBuffer c buffer filetype).1 = stringtoslicerune buffer ->
  ((SystemEditor EditBuffer c buffer filetype).1 = buffer <-> Valid buffer = true).
Proof.
  intros Hsame. rewrite SystemEditor_eq. cbn [fst]. rewrite Hsame.
  apply Utf8Facts.roundtrip_iff_Valid.
Qed.

Lemma SystemEditor_unchanged_iff_valid_witness :
  (editor_result idle_editor session [z2b 0x41; z2b 0xFF] "txt").1
    = stringtoslicerune [z2b 0x41; z2b 0xFF] /\
  (SystemEditor idle_editor session [z2b 0x41; z2b 0xFF] "txt").1
    <> [z2b 0x41; z2b 0xFF].
Proof.
  split; [reflexivity|].
  intros Heq.
  apply (SystemEditor_unchanged_iff_valid idle_editor session
           [z2b 0x41; z2b 0xFF] "txt" eq_refl) in Heq.
  vm_compute in Heq. discriminate.
Defined.

(** The bytes [SystemEditor] returns decode to the runes the editor
    returned, when these are code points and no surrogates; the error of
    the editor is returned as it is. *)
Theorem SystemEditor_returns_the_edit
    (EditBuffer : list rune -> string -> string -> bool -> list rune * option string)
    (c : Console) (buffer : list byte) (filetype : string) :
  Forall (fun r => ValidRune r = true)
         (editor_result EditBuffer c buffer filetype).1 ->
  stringtoslicerune (SystemEditor EditBuffer c buffer filetype).1
    = (editor_result EditBuffer c buffer filetype).1 /\
  (SystemEditor EditBuffer c buffer filetype).2
    = (editor_result EditBuffer c buffer filetype).2.
Proof.
  intros Hvalid. rewrite SystemEditor_eq. cbn [fst snd].
  split; [|reflexivity].
  apply Utf8Facts.slicerunetostring_roundtrip. exact Hvalid.
Qed.

Lemma SystemEditor_returns_the_edit_witness :
  Forall (fun r => ValidRune r = true)
    (editor_result (editor_returning [0x68; 0xE9; 0x20AC]) session
       sample_buffer "txt").1 /\
  stringtoslicerune
    (SystemEditor (editor_returning [0x68; 0xE9; 0x20AC]) session
       sample_buffer "txt").1 = [0x68; 0xE9; 0x20AC].
Proof.
  assert (H : Forall (fun r => ValidRune r = true)
    (editor_result (editor_returning [0x68; 0xE9; 0x20AC]) session
       sample_buffer "txt").1) by (repeat constructor).
  split; [exact H|].
  exact (proj1 (SystemEditor_returns_the_edit
    (editor_returning [0x68; 0xE9; 0x20AC]) session sample_buffer "txt" H)).
Defined.



(** The editor is given runes that are code points and no surrogates,
    never more of them than the buffer has bytes. *)
Theorem SystemEditor_editor_input (buffer : list byte) :
  Forall (fun r => ValidRune r = true) (stringtoslicerune buffer) /\
  (length (stringtoslicerune buffer) <= length buffer)%nat.
Proof. apply Utf8Facts.range_runes_result. Qed.

(** ** The bindings of the line reader in reachable states *)

Section Bindings.

Variable NewShell : string -> Shell.
Variable newMenu : string -> Console -> Menu.

(** Modelled from the spec: a new menu is not automatically marked
    active. *)
Hypothesis newMenu_inactive : forall key c, active (newMenu key c) = false.

(** The line reader comes without history sources. *)
Hypothesis NewShell_unbound : forall app, History (NewShell app) = [].

Lemma bound_to_active_New (app : string) :
  bound_to_active (New NewShell newMenu app).
Proof.
  intros key menu Hkey _.
  rewrite New_shell_eq. cbn [History]. rewrite NewShell_unbound, app_nil_l.
  assert (Hm : menus (New NewShell newMenu app) =
    {[""%string := set_active true (newMenu "" (fresh_console NewShell app))]}).
  { unfold New, NewMenu, fresh_console. cbn [snd fst].
    unfold write_active. cbn [menus shell].
    rewrite lookup_alter_eq, lookup_insert_eq. cbn [fmap option_fmap option_map].
    rewrite bind_histories_eq. cbn [menus].
    rewrite alter_insert_eq. cbn [setupShell with_shell menus].
    rewrite insert_empty. reflexivity. }
  rewrite Hm in Hkey. apply lookup_singleton_Some in Hkey as [_ <-].
  reflexivity.
Qed.

Lemma reachable_bound (c : Console) :
  reachable NewShell newMenu c -> bound_to_active c.
Proof.
  intros Hreach.
  induction Hreach as [app|key c Hreach IH|order menu c Hreach IH Hord].
  - apply bound_to_active_New.
  - intros k m Hk Hact. unfold NewMenu in Hk |- *. cbn [snd menus shell] in *.
    apply lookup_insert_Some in Hk as [[_ <-]|[_ Hk]].
    + rewrite newMenu_inactive in Hact. discriminate.
    + exact (IH k m Hk Hact).
  - destruct (menus c !! menu) as [target|] eqn:Hfound.
    + intros k m Hk Hact.
      pose proof (reachable_registry_inv NewShell newMenu newMenu_inactive
                    c Hreach) as [Hone _].
      assert (k = menu) as ->
        by exact (SwitchMenu_only_target_active c order menu target
                    Hord Hone Hfound k m Hk Hact).
      rewrite (SwitchMenu_target_lookup c order menu target Hfound) in Hk.
      injection Hk as <-.
      rewrite (SwitchMenu_found c order menu target Hfound). reflexivity.
    + rewrite (SwitchMenu_absent_registry c order menu Hfound). exact IH.
Qed.

End Bindings.

(** In every state reached from [New] by calls of [NewMenu] and
    [SwitchMenu], on a line reader that comes without history sources and
    with new menus created inactive, the line reader is bound to exactly
    the sources of the menu that is marked active, if one is. *)
Theorem reachable_bound_to_active
    (NewShell : string -> Shell) (newMenu : string -> Console -> Menu)
    (c : Console) :
  (forall key c0, active (newMenu key c0) = false) ->
  (forall app, History (NewShell app) = []) ->
  reachable NewShell newMenu c ->
  bound_to_active c.
Proof.
  intros Hnew Hunbound Hreach.
  exact (reachable_bound NewShell newMenu Hnew Hunbound c Hreach).
Qed.

Lemma reachable_bound_to_active_witness :
  (forall key c0, active (plain_menu key c0) = false) /\
  (forall app, History (plain_shell app) = []) /\
  reachable plain_shell plain_menu switched_to_sub /\
  bound_to_active switched_to_sub.
Proof.
  assert (Hnew : forall key c0, active (plain_menu key c0) = false)
    by (intros; reflexivity).
  assert (Hunbound : forall app, History (plain_shell app) = [])
    by (intros; reflexivity).
  assert (Hreach : reachable plain_shell plain_menu switched_to_sub).
  { unfold switched_to_sub. apply reach_SwitchMenu.
    - apply reach_NewMenu. apply reach_New.
    - apply range_order_map_to_list. }
  split; [exact Hnew|]. split; [exact Hunbound|]. split; [exact Hreach|].
  exact (reachable_bound_to_active plain_shell plain_menu switched_to_sub
           Hnew Hunbound Hreach).
Defined.

(** In such a state a switch to the menu that is marked active changes
    nothing. *)
Theorem reachable_switch_to_marked_menu
    (NewShell : string -> Shell) (newMenu : string -> Console -> Menu)
    (c : Console) (order : list (string * Menu)) (menu : string) (target : Menu) :
  (forall key c0, active (newMenu key c0) = false) ->
  (forall app, History (NewShell app) = []) ->
  reachable NewShell newMenu c ->
  range_order c order ->
  menus c !! menu = Some target -> active target = true ->
  SwitchMenu order menu c = c.
Proof.
  intros Hnew Hunbound Hreach Hord Hfound Hact.
  apply (SwitchMenu_bound_noop c order menu target); try assumption.
  - exact (proj1 (reachable_registry_inv NewShell newMenu Hnew c Hreach)).
  - exact (reachable_bound NewShell newMenu Hnew Hunbound c Hreach
             menu target Hfound Hact).
Qed.

Lemma reachable_switch_to_marked_menu_witness :
  (forall key c0, active (plain_menu key c0) = false) /\
  (forall app, History (plain_shell app) = []) /\
  reachable plain_shell plain_menu switched_to_sub /\
  range_order switched_to_sub (map_to_list (menus switched_to_sub)) /\
  menus switched_to_sub !! "sub"%string
    = Some (set_active true (plain_menu "sub" switched_to_sub)) /\
  SwitchMenu (map_to_list (menus switched_to_sub)) "sub" switched_to_sub
    = switched_to_sub.
Proof.
  assert (Hnew : forall key c0, active (plain_menu key c0) = false)
    by (intros; reflexivity).
  assert (Hunbound : forall app, History (plain_shell app) = [])
    by (intros; reflexivity).
  assert (Hreach : reachable plain_shell plain_menu switched_to_sub).
  { unfold switched_to_sub. apply reach_SwitchMenu.
    - apply reach_NewMenu. apply reach_New.
    - apply range_order_map_to_list. }
  assert (Hfound : menus switched_to_sub !! "sub"%string
                   = Some (set_active true (plain_menu "sub" switched_to_sub)))
    by (vm_compute; reflexivity).
  split; [exact Hnew|]. split; [exact Hunbound|]. split; [exact Hreach|].
  split; [apply range_order_map_to_list|]. split; [exact Hfound|].
  exact (reachable_switch_to_marked_menu plain_shell plain_menu switched_to_sub
           (map_to_list (menus switched_to_sub)) "sub" _
           Hnew Hunbound Hreach (range_order_map_to_list _) Hfound eq_refl).
Defined.

End ConsoleFacts.

(* ===================================================================== *)
(** * Properties of the guard                                              *)
(* ===================================================================== *)

Module GuardFacts.
Import Console Guard.

(** The steps of [SwitchMenu_prog], run alone, are the function
    [SwitchMenu]. *)
Lemma solo_history_loop (target : Menu) (keys : list string) (c : Console) :
  solo (foldr (fun key k =>
                 Store (with_shell (History_Add key (histories target !! key))) k)
              (Release Shared Done) keys) c
  = foldl (fun c' key => with_shell (History_Add key (histories target !! key)) c')
          c keys.
Proof.
  revert c. induction keys as [|key keys IH]; intros c; [reflexivity|].
  cbn [foldr solo foldl]. apply IH.
Qed.

Lemma solo_SwitchMenu (order_of : Console -> list (string * Menu))
    (menu : string) (c : Console) :
  solo (SwitchMenu_prog order_of menu) c = SwitchMenu (order_of c) menu c.
Proof.
  unfold SwitchMenu_prog, SwitchMenu. cbn [solo].
  destruct (menus c !! menu) as [target|]; [|reflexivity].
  cbn [solo]. rewrite solo_history_loop. reflexivity.
Qed.

(** A thread that wants the guard in exclusive mode waits as long as a
    thread holds it in shared mode; a thread that wants it in shared mode
    does not wait for the holders of the shared mode. *)
Lemma exclusive_waits_for_shared (i : nat) (s : machine) (k : prog) :
  threads s !! i = Some (Acquire Exclusive k) ->
  (0 < readers (mutex s))%nat -> step i s = None.
Proof.
  intros Hi Hr. unfold step. rewrite Hi.
  destruct (readers (mutex s)) as [|n]; [lia|].
  rewrite orb_true_r. reflexivity.
Qed.

Lemma shared_joins_shared (i : nat) (s : machine) (k : prog) :
  threads s !! i = Some (Acquire Shared k) ->
  writer (mutex s) = false -> is_Some (step i s).
Proof.
  intros Hi Hw. unfold step. rewrite Hi, Hw. eauto.
Qed.

(** C9. [SwitchMenu] holds the guard in shared mode ([RLock]), and so does
    [reloadConfig]: in the schedule [reload_in_the_middle] the reload runs
    between [current.active = false] and [target.active = true] of a
    switch from "a" to "b", and the active menu it reads is the default
    menu "", which is the active menu neither before nor after the
    switch.  Both threads run to their end, the guard is free again, and
    the console is the one [SwitchMenu] gives when it runs alone. *)
Theorem SwitchMenu_shared_guard_interleaves :
  fst <$> activeMenu (listed_order three_menus) three_menus = Some "a"%string /\
  exists final,
    run reload_in_the_middle switch_and_reload = Some final /\
    reports final = [(1%nat, Some ""%string)] /\
    all_done final = true /\
    mutex final = {| readers := 0; writer := false |} /\
    console final = SwitchMenu (listed_order three_menus) "b" three_menus /\
    fst <$> activeMenu (listed_order (console final)) (console final)
      = Some "b"%string.
Proof.
  split; [vm_compute; reflexivity|].
  eexists. split; [vm_compute; reflexivity|].
  repeat split; vm_compute; reflexivity.
Qed.

(** [CurrentMenu] takes the guard in exclusive mode: while the switch
    holds the shared mode its first step is blocked. *)
Example CurrentMenu_waits :
  let s := {| console := three_menus;
              mutex := {| readers := 0; writer := false |};
              threads := [SwitchMenu_prog listed_order "b";
                          CurrentMenu_prog listed_order];
              reports := [] |} in
  (exists s', run [0; 0; 0; 0]%nat s = Some s' /\ step 1 s' = None).
Proof.
  eexists. split; [vm_compute; reflexivity|]. reflexivity.
Qed.

(** ** A switch beside a call of [CurrentMenu] *)

Section SwitchAndCurrent.

Variable order_of : Console -> list (string * Menu).
Variable before : Console.
Variable menu : string.

Local Abbreviation after := (after order_of before menu).
Local Abbreviation settled := (settled order_of before menu).
Local Abbreviation switch_at := (switch_at order_of before menu).
Local Abbreviation current_at := (current_at order_of before menu).
Local Abbreviation exclusion := (exclusion order_of before menu).

Lemma history_loop_body (target : Menu) (keys : list string) :
  body (foldr (fun key k =>
                 Store (with_shell (History_Add key (histories target !! key))) k)
              (Release Shared Done) keys).
Proof.
  induction keys as [|key keys IH]; cbn [foldr]; constructor. exact IH.
Qed.

Lemma SwitchMenu_prog_body :
  exists p, SwitchMenu_prog order_of menu = Acquire Shared p /\ body p.
Proof.
  eexists. split; [reflexivity|].
  apply body_load. intros [target|]; [|apply body_release].
  apply body_load. intros current.
  apply body_store, body_store, body_store, history_loop_body.
Qed.

Lemma switch_at_frame (t0 : prog) (s s' : machine) :
  console s' = console s -> readers (mutex s') = readers (mutex s) ->
  switch_at t0 s -> switch_at t0 s'.
Proof.
  unfold Guard.switch_at. intros -> ->. exact (fun H => H).
Qed.

Lemma current_at_frame (t1 : prog) (s s' : machine) :
  writer (mutex s') = writer (mutex s) -> current_at t1 s -> current_at t1 s'.
Proof.
  unfold Guard.current_at. intros ->. exact (fun H => H).
Qed.

Lemma exclusion_start : exclusion (switch_and_current order_of before menu).
Proof.
  destruct SwitchMenu_prog_body as (p & Hp & Hbody).
  exists (SwitchMenu_prog order_of menu), (CurrentMenu_prog order_of).
  split; [reflexivity|]. split; [|split; [|split]].
  - left. exists p. split; [exact Hp|]. split; [exact Hbody|].
    split; [reflexivity|]. split; [|reflexivity].
    unfold Guard.after. rewrite <- solo_SwitchMenu, Hp. reflexivity.
  - left. split; reflexivity.
  - discriminate.
  - constructor.
Qed.

Lemma exclusion_step (i : nat) (s s' : machine) :
  exclusion s -> step i s = Some s' -> exclusion s'.
Proof.
  intros (t0 & t1 & Hth & H0 & H1 & Hex & Hrep) Hstep.
  unfold step in Hstep. rewrite Hth in Hstep.
  destruct i as [|[|i]]; cbn [lookup list_lookup] in Hstep; [| |discriminate].
  - (* a step of the switch *)
    destruct H0 as [(p & -> & Hb & Hc & Hsolo & Hr)
                   |[(Hb & Hsolo & Hr)|(-> & _)]]; [| |discriminate].
    + destruct (writer (mutex s)) eqn:Hw; [discriminate|].
      injection Hstep as <-. exists p, t1. cbn.
      split; [reflexivity|]. split; [|split; [|split]].
      * right; left. cbn. rewrite Hc, Hr. auto.
      * apply (current_at_frame t1 s); [cbn; congruence | exact H1].
      * discriminate.
      * exact Hrep.
    + assert (Hw : writer (mutex s) = false).
      { destruct (writer (mutex s)); [|reflexivity]. rewrite Hex in Hr; [discriminate|reflexivity]. }
      destruct Hb as [|A read k Hk|write k Hk];
        injection Hstep as <-; eexists _, t1; cbn;
        (split; [reflexivity|]); (split; [|split; [|split]]).
      * right; right. cbn in Hsolo. rewrite Hr. auto.
      * apply (current_at_frame t1 s); [reflexivity | exact H1].
      * rewrite Hw. discriminate.
      * exact Hrep.
      * right; left. cbn in Hsolo |- *. auto.
      * apply (current_at_frame t1 s); [reflexivity | exact H1].
      * rewrite Hw. discriminate.
      * exact Hrep.
      * right; left. cbn in Hsolo |- *. auto.
      * apply (current_at_frame t1 s); [reflexivity | exact H1].
      * rewrite Hw. discriminate.
      * exact Hrep.
  - (* a step of [CurrentMenu] *)
    destruct H1 as [[-> Hw]|[[-> Hw]|[(seen & -> & Hseen & Hw)
                   |[[-> Hw]|[-> _]]]]]; [| | | |discriminate].
    + cbn in Hstep. rewrite Hw in Hstep. cbn in Hstep.
      destruct (readers (mutex s)) as [|n] eqn:Hr; [|discriminate].
      injection Hstep as <-. exists t0, (current_locked order_of). cbn.
      split; [reflexivity|]. split; [|split; [|split]].
      * apply (switch_at_frame t0 s); [reflexivity | cbn; congruence | exact H0].
      * right; left. auto.
      * intros _. reflexivity.
      * exact Hrep.
    + cbn in Hstep. injection Hstep as <-.
      eexists t0, _. cbn.
      split; [reflexivity|]. split; [|split; [|split]].
      * apply (switch_at_frame t0 s); [reflexivity | reflexivity | exact H0].
      * right; right; left. eexists. split; [reflexivity|]. split; [|exact Hw].
        specialize (Hex Hw).
        destruct H0 as [(p & _ & _ & Hc & _)|[(_ & _ & Hr)|(_ & Hc & _)]].
        -- left. rewrite Hc. reflexivity.
        -- rewrite Hex in Hr. discriminate.
        -- right. rewrite Hc. reflexivity.
      * exact Hex.
      * exact Hrep.
    + cbn in Hstep. injection Hstep as <-.
      exists t0, (Release Exclusive Done). cbn.
      split; [reflexivity|]. split; [|split; [|split]].
      * apply (switch_at_frame t0 s); [reflexivity | reflexivity | exact H0].
      * right; right; right; left. auto.
      * exact Hex.
      * apply Forall_app. split; [exact Hrep|]. constructor; [exact Hseen|constructor].
    + cbn in Hstep. injection Hstep as <-.
      exists t0, Done. cbn.
      split; [reflexivity|]. split; [|split; [|split]].
      * apply (switch_at_frame t0 s); [reflexivity | reflexivity | exact H0].
      * right; right; right; right. auto.
      * discriminate.
      * exact Hrep.
Qed.

Lemma exclusion_run (schedule : list nat) :
  forall s final, exclusion s -> run schedule s = Some final -> exclusion final.
Proof.
  induction schedule as [|i rest IH]; intros s final Hinv Hrun.
  - injection Hrun as <-. exact Hinv.
  - cbn [run] in Hrun. destruct (step i s) as [s'|] eqn:Hstep; [|discriminate].
    apply (IH s'); [|exact Hrun].
    apply (exclusion_step i s); assumption.
Qed.

End SwitchAndCurrent.

(** [CurrentMenu] takes the guard in exclusive mode, [SwitchMenu] in
    shared mode: in every schedule of a switch beside a call of
    [CurrentMenu], the menu [CurrentMenu] returns is the active menu of
    the console before the switch or of the console after it, never of a
    state in between. *)
Theorem CurrentMenu_sees_settled_menu
    (order_of : Console -> list (string * Menu)) (before : Console)
    (menu : string) (schedule : list nat) (final : machine) :
  run schedule (switch_and_current order_of before menu) = Some final ->
  forall i seen, (i, seen) ∈ reports final -> settled order_of before menu seen.
Proof.
  intros Hrun i seen Hin.
  destruct (exclusion_run order_of before menu schedule _ final
              (exclusion_start order_of before menu) Hrun)
    as (_ & _ & _ & _ & _ & _ & Hrep).
  rewrite Forall_forall in Hrep. exact (Hrep (i, seen) Hin).
Qed.

Lemma CurrentMenu_sees_settled_menu_witness :
  exists final,
    run current_first (switch_and_current listed_order three_menus "b")
      = Some final /\
    (1%nat, Some "a"%string) ∈ reports final /\
    settled listed_order three_menus "b" (Some "a"%string).
Proof.
  pose proof (CurrentMenu_sees_settled_menu listed_order three_menus "b"
                current_first) as Hsettled.
  destruct (run current_first (switch_and_current listed_order three_menus "b"))
    as [final|] eqn:Hrun; [|vm_compute in Hrun; discriminate].
  exists final. split; [reflexivity|].
  assert (Hin : (1%nat, Some "a"%string) ∈ reports final).
  { vm_compute in Hrun. injection Hrun as <-. vm_compute. left. }
  split; [exact Hin|].
  exact (Hsettled final eq_refl 1%nat (Some "a"%string) Hin).
Defined.

End GuardFacts.
